(** * Ech0 echo repository: page cache and invalidation

    A shallow embedding of [internal/repository/echo] (the Go type
    [EchoRepository] with its methods [CreateEcho], [GetEchosByPage],
    [GetEchosById], [DeleteEchoById], [UpdateEcho] and [LikeEcho]) together
    with the collaborators it calls: the relational store reached through
    gorm, the page cache behind [cache.ICache], the cache-key builder and the
    list of cache keys used for invalidation.

    Layout: Go values and library functions, the cache store, the key
    builder, the relational store, the repository methods, and then the
    lemmas about them. *)

From Stdlib Require Import ZArith List String Ascii Bool Lia FunInd.
From Stdlib Require Import DecimalString DecimalZ.
Import ListNotations.

Local Open Scope string_scope.
Local Open Scope Z_scope.

(* ===================================================================== *)
(** ** Go values *)

(** Go's [int] on the 64-bit targets the server is built for: a signed
    two's-complement word.  Arithmetic wraps silently. *)
Definition int_bits : Z := 64.
Definition MaxInt : Z := 2 ^ (int_bits - 1) - 1.
Definition MinInt : Z := - 2 ^ (int_bits - 1).

Definition wrap_int (z : Z) : Z :=
  (z + 2 ^ (int_bits - 1)) mod 2 ^ int_bits - 2 ^ (int_bits - 1).

Definition is_int (z : Z) : Prop := MinInt <= z <= MaxInt.

Definition int_sub (a b : Z) : Z := wrap_int (a - b).
Definition int_mul (a b : Z) : Z := wrap_int (a * b).

(** A Go string is a sequence of bytes; [ascii] is the byte type. *)
Definition byte_val (c : ascii) : N := N_of_ascii c.

Fixpoint srev_onto (s acc : string) : string :=
  match s with
  | EmptyString => acc
  | String c r => srev_onto r (String c acc)
  end.

Definition srev (s : string) : string := srev_onto s EmptyString.

(** *** [strings.TrimSpace]

    The bytes that Go trims are the UTF-8 encodings of the code points for
    which [unicode.IsSpace] holds: the six ASCII ones, U+0085, U+00A0,
    U+1680, U+2000..U+200A, U+2028, U+2029, U+202F, U+205F and U+3000. *)

Definition asciiSpace (c : ascii) : bool :=
  let b := byte_val c in
  ((9 <=? b) && (b <=? 13) || (b =? 32))%N.

(** U+0085 is C2 85, U+00A0 is C2 A0. *)
Definition space2 (c1 c2 : ascii) : bool :=
  ((byte_val c1 =? 194) && ((byte_val c2 =? 133) || (byte_val c2 =? 160)))%N.

(** U+1680 is E1 9A 80; U+2000..U+200A are E2 80 80..8A; U+2028, U+2029,
    U+202F are E2 80 A8, A9, AF; U+205F is E2 81 9F; U+3000 is E3 80 80. *)
Definition space3 (c1 c2 c3 : ascii) : bool :=
  let b1 := byte_val c1 in
  let b2 := byte_val c2 in
  let b3 := byte_val c3 in
  ((b1 =? 225) && (b2 =? 154) && (b3 =? 128)
   || (b1 =? 226) && (b2 =? 128)
        && ((128 <=? b3) && (b3 <=? 138) || (b3 =? 168) || (b3 =? 169) || (b3 =? 175))
   || (b1 =? 226) && (b2 =? 129) && (b3 =? 159)
   || (b1 =? 227) && (b2 =? 128) && (b3 =? 128))%N.

(** [TrimLeftFunc(s, unicode.IsSpace)]: drop white-space runes from the
    front, one encoded rune at a time. *)
Function trimLeft (s : string) {struct s} : string :=
  match s with
  | EmptyString => EmptyString
  | String c1 r1 =>
      if asciiSpace c1 then trimLeft r1
      else match r1 with
           | EmptyString => s
           | String c2 r2 =>
               if space2 c1 c2 then trimLeft r2
               else match r2 with
                    | EmptyString => s
                    | String c3 r3 =>
                        if space3 c1 c2 c3 then trimLeft r3 else s
                    end
           end
  end.

(** The same loop run over the reversed string: the last rune of the string
    comes first, its bytes in reverse order. *)
Function trimLeftRev (s : string) {struct s} : string :=
  match s with
  | EmptyString => EmptyString
  | String c1 r1 =>
      if asciiSpace c1 then trimLeftRev r1
      else match r1 with
           | EmptyString => s
           | String c2 r2 =>
               if space2 c2 c1 then trimLeftRev r2
               else match r2 with
                    | EmptyString => s
                    | String c3 r3 =>
                        if space3 c3 c2 c1 then trimLeftRev r3 else s
                    end
           end
  end.

(** [TrimRightFunc(s, unicode.IsSpace)]. *)
Definition trimRight (s : string) : string := srev (trimLeftRev (srev s)).

Definition TrimSpace (s : string) : string := trimRight (trimLeft s).

(** A string made of white-space runes only. *)
Inductive all_space : string -> Prop :=
| all_space_nil : all_space EmptyString
| all_space_1 c r :
    asciiSpace c = true -> all_space r -> all_space (String c r)
| all_space_2 c1 c2 r :
    space2 c1 c2 = true -> all_space r -> all_space (String c1 (String c2 r))
| all_space_3 c1 c2 c3 r :
    space3 c1 c2 c3 = true -> all_space r ->
    all_space (String c1 (String c2 (String c3 r))).

(** [s] begins with a white-space rune. *)
Definition starts_with_space (s : string) : bool :=
  match s with
  | EmptyString => false
  | String c1 r1 =>
      asciiSpace c1
      || match r1 with
         | EmptyString => false
         | String c2 r2 =>
             space2 c1 c2
             || match r2 with
                | EmptyString => false
                | String c3 _ => space3 c1 c2 c3
                end
         end
  end.

(** The same test on the reversed string. *)
Definition starts_with_space_rev (s : string) : bool :=
  match s with
  | EmptyString => false
  | String c1 r1 =>
      asciiSpace c1
      || match r1 with
         | EmptyString => false
         | String c2 r2 =>
             space2 c2 c1
             || match r2 with
                | EmptyString => false
                | String c3 _ => space3 c3 c2 c1
                end
         end
  end.

(** [s] ends with a white-space rune. *)
Definition ends_with_space (s : string) : bool :=
  starts_with_space_rev (srev s).

(** The bytes a white-space rune can begin with. *)
Definition start_byte (c : ascii) : bool :=
  let b := byte_val c in
  (asciiSpace c || (b =? 194) || ((225 <=? b) && (b <=? 227)))%N.

(** [%d] and [%t] of [fmt.Sprintf]. *)
Definition fmt_d (z : Z) : string := NilEmpty.string_of_int (Z.to_int z).
Definition fmt_t (b : bool) : string := if b then "true" else "false".

(* ===================================================================== *)
(** ** Model types of the repository *)

(** [model.Image] and [model.Echo], with the columns the repository reads
    or writes. *)
Record Image := mkImage {
  ImageID : Z;
  MessageID : Z;
  ImageURL : string;
  ImageSource : string
}.

Record Echo := mkEcho {
  ID : Z;
  Content : string;
  Images : list Image;
  Private : bool;
  Extension : string;
  ExtensionType : string;
  FavCount : Z;
  CreatedAt : Z
}.

(** [commonModel.PageQueryResult[[]model.Echo]], the cached payload. *)
Record PageQueryResult := mkPage {
  Items : list Echo;
  Total : Z
}.

(** Errors the repository can return.  [ErrRecordNotFound] is gorm's
    sentinel, [ErrEchoNotFound] is [errors.New(commonModel.ECHO_NOT_FOUND)],
    [ErrDriver] stands for any failure reported by the database driver. *)
Inductive Err :=
| ErrRecordNotFound
| ErrEchoNotFound
| ErrDriver (code : Z).

Definition Err_eqb (a b : Err) : bool :=
  match a, b with
  | ErrRecordNotFound, ErrRecordNotFound => true
  | ErrEchoNotFound, ErrEchoNotFound => true
  | ErrDriver x, ErrDriver y => x =? y
  | _, _ => false
  end.

(** [errors.Is(err, target)] on these flat errors. *)
Definition errors_Is (e target : Err) : bool := Err_eqb e target.

Definition with_Content (e : Echo) (c : string) : Echo :=
  mkEcho (ID e) c (Images e) (Private e) (Extension e) (ExtensionType e)
         (FavCount e) (CreatedAt e).

Definition with_Images (e : Echo) (imgs : list Image) : Echo :=
  mkEcho (ID e) (Content e) imgs (Private e) (Extension e) (ExtensionType e)
         (FavCount e) (CreatedAt e).

Definition with_MessageID (i : Image) (m : Z) : Image :=
  mkImage (ImageID i) m (ImageURL i) (ImageSource i).

(* ===================================================================== *)
(** ** The cache store *)

Inductive CacheErr :=
| ErrInvalidCost
| ErrEntryTooLarge.

Section CacheStore.
Variable V : Type.

Record Entry := mkEntry {
  ekey : string;
  evalue : V;
  ecost : Z
}.

(** Modelled from the spec: the implementation of [cache.ICache] is not
    part of the sources at hand.  The store keeps a capacity budget and
    its resident entries, least recently used first; the eviction policy
    is least-recently-used. *)
Record CacheStore := mkCache {
  capacity : Z;
  entries : list Entry
}.

Definition empty_cache (cap : Z) : CacheStore := mkCache cap [].

Fixpoint used (l : list Entry) : Z :=
  match l with
  | [] => 0
  | e :: r => ecost e + used r
  end.

Definition remove_key (k : string) (l : list Entry) : list Entry :=
  filter (fun e => negb (ekey e =? k)%string) l.

Definition lookup (k : string) (l : list Entry) : option Entry :=
  find (fun e => (ekey e =? k)%string) l.

(** Evict from the least recently used end until what remains fits the
    budget. *)
Fixpoint evict (budget : Z) (l : list Entry) : list Entry :=
  match l with
  | [] => []
  | e :: r => if used l <=? budget then l else evict budget r
  end.

(** Modelled from the spec: [Get(key) -> (value, found)]; a hit makes the
    entry the most recently used one. *)
Definition cache_Get (k : string) (c : CacheStore) : option V * CacheStore :=
  match lookup k (entries c) with
  | Some e =>
      (Some (evalue e), mkCache (capacity c) (remove_key k (entries c) ++ [e]))
  | None => (None, c)
  end.

(** Modelled from the spec: [Set(key, value, cost) -> error].  A cost of
    zero or less is rejected; an entry whose cost alone exceeds the
    capacity is rejected as too large; in both cases the store is left as
    it was.  Otherwise the entry replaces any entry under the same key and
    older entries are evicted until it fits. *)
Definition cache_Set (k : string) (v : V) (cost : Z) (c : CacheStore)
  : option CacheErr * CacheStore :=
  if cost <=? 0 then (Some ErrInvalidCost, c)
  else if capacity c <? cost then (Some ErrEntryTooLarge, c)
  else (None,
        mkCache (capacity c)
                (evict (capacity c - cost) (remove_key k (entries c))
                 ++ [mkEntry k v cost])).

(** Modelled from the spec: [Delete(key)], a no-op on an absent key. *)
Definition cache_Delete (k : string) (c : CacheStore) : CacheStore :=
  mkCache (capacity c) (remove_key k (entries c)).

(** Modelled from the spec: [Clear()]. *)
Definition cache_Clear (c : CacheStore) : CacheStore :=
  mkCache (capacity c) [].

Definition resident (k : string) (c : CacheStore) : bool :=
  existsb (fun e => (ekey e =? k)%string) (entries c).

(** A sequence of [Set] calls, errors dropped as the repository drops
    them. *)
Fixpoint run_sets (ops : list (string * V * Z)) (c : CacheStore) : CacheStore :=
  match ops with
  | [] => c
  | (k, v, cost) :: r => run_sets r (snd (cache_Set k v cost c))
  end.

Definition costs_positive (l : list Entry) : Prop :=
  Forall (fun e => 0 < ecost e) l.
End CacheStore.

Arguments mkEntry {V}.
Arguments ekey {V}.
Arguments evalue {V}.
Arguments ecost {V}.
Arguments mkCache {V}.
Arguments capacity {V}.
Arguments entries {V}.
Arguments empty_cache {V}.
Arguments used {V}.
Arguments remove_key {V}.
Arguments lookup {V}.
Arguments evict {V}.
Arguments cache_Get {V}.
Arguments cache_Set {V}.
Arguments cache_Delete {V}.
Arguments cache_Clear {V}.
Arguments resident {V}.
Arguments run_sets {V}.
Arguments costs_positive {V}.

(* ===================================================================== *)
(** ** The key builder *)

(** Modelled from the spec: [GetEchoPageCacheKey] is not part of the sources
    at hand.  The key concatenates the four fields of the query, in the
    order of the descriptor, with a colon between them; the search term is
    taken verbatim. *)
Definition GetEchoPageCacheKey (page pageSize : Z) (search : string)
           (showPrivate : bool) : string :=
  "echo_page:" ++ fmt_d page ++ ":" ++ fmt_d pageSize ++ ":" ++ search
  ++ ":" ++ fmt_t showPrivate.

(* ===================================================================== *)
(** ** The relational store *)

(** The [Where] clauses the repository puts on [db.Model(&model.Echo{})]. *)
Inductive Cond :=
| CondContentLike (pattern : string)
| CondPrivateEq (b : bool).

(** One statement sent to the store. *)
Inductive DBOp :=
| OpCreate
| OpCount (q : list Cond)
| OpFind (q : list Cond) (limit offset : Z)
| OpFirst (id : Z)
| OpDeleteImages (message_id : Z)
| OpDeleteEcho (id : Z)
| OpBegin
| OpRollback
| OpCommit
| OpUpdates (id : Z)
| OpCreateImages
| OpExists (id : Z)
| OpFavIncr (id : Z).

(** What an observer of the repository sees, oldest first: each statement
    with the error it came back with, and each purge of the page cache. *)
Inductive Event :=
| EvDB (op : DBOp) (err : option Err)
| EvPurge.

(** The store: the two tables, the next automatic id, the clock, the
    outcome the driver will report for the coming statements ([None] or an
    exhausted list: the statement runs) and the LIKE operator of the engine
    (pattern first). *)
Record DB := mkDB {
  echos : list Echo;
  images : list Image;
  next_id : Z;
  now : Z;
  faults : list (option Err);
  like : string -> string -> bool
}.

Definition ErrDuplicatedKey : Err := ErrDriver 1555.

Definition cond_holds (d : DB) (c : Cond) (e : Echo) : bool :=
  match c with
  | CondContentLike p => like d p (Content e)
  | CondPrivateEq b => Bool.eqb (Private e) b
  end.

Definition matches (d : DB) (q : list Cond) (e : Echo) : bool :=
  forallb (fun c => cond_holds d c e) q.

Definition matching (d : DB) (q : list Cond) : list Echo :=
  filter (matches d q) (echos d).

Definition count_rows (d : DB) (q : list Cond) : Z :=
  Z.of_nat (List.length (matching d q)).

(** [Preload("Images")]. *)
Definition preload (d : DB) (e : Echo) : Echo :=
  with_Images e (filter (fun i => MessageID i =? ID e) (images d)).

(** [Order("created_at DESC")]. *)
Fixpoint insert_desc (e : Echo) (l : list Echo) : list Echo :=
  match l with
  | [] => [e]
  | x :: r => if CreatedAt x <? CreatedAt e then e :: l else x :: insert_desc e r
  end.

Definition order_desc (l : list Echo) : list Echo :=
  fold_right insert_desc [] l.

(** [Limit] and [Offset] as gorm renders them: a negative limit means no
    limit, an offset that is not positive means no offset. *)
Definition window (limit offset : Z) (l : list Echo) : list Echo :=
  let l1 := if 0 <? offset then skipn (Z.to_nat offset) l else l in
  if 0 <=? limit then firstn (Z.to_nat limit) l1 else l1.

Definition find_rows (d : DB) (q : list Cond) (limit offset : Z) : list Echo :=
  map (preload d) (window limit offset (order_desc (matching d q))).

Definition with_tables (d : DB) (es : list Echo) (ims : list Image) (n : Z) : DB :=
  mkDB es ims n (now d) (faults d) (like d).

Definition with_faults (d : DB) (fs : list (option Err)) : DB :=
  mkDB (echos d) (images d) (next_id d) (now d) fs (like d).

(* ===================================================================== *)
(** ** The repository state and its monad *)

(** [EchoRepository] holds the store handle and the cache; [echoKeyList] is
    the package-level slice of cache keys; [trace] is the observer's log. *)
Record State := mkState {
  db : DB;
  cache : CacheStore PageQueryResult;
  echoKeyList : list string;
  trace : list Event
}.

Definition M (A : Type) : Type := State -> A * State.

Definition ret {A} (a : A) : M A := fun s => (a, s).

Definition bind {A B} (m : M A) (k : A -> M B) : M B :=
  fun s => let (a, s') := m s in k a s'.

Notation "x <- m ;; k" := (bind m (fun x => k))
  (at level 61, m at next level, right associativity).
Notation "' pat <- m ;; k" := (bind m (fun x => match x with pat => k end))
  (at level 61, pat pattern, m at next level, right associativity).

Definition set_db (d : DB) : M unit :=
  fun s => (tt, mkState d (cache s) (echoKeyList s) (trace s)).

Definition get_db : M DB := fun s => (db s, s).

Definition log (ev : Event) : M unit :=
  fun s => (tt, mkState (db s) (cache s) (echoKeyList s) (trace s ++ [ev])).

(** One statement: the driver may report a failure, in which case nothing
    runs; otherwise [run] gives the outcome on the tables. *)
Definition db_call {A} (op : DBOp) (dflt : A)
           (run : DB -> option Err * A * DB) : M (option Err * A) :=
  d <- get_db ;;
  match faults d with
  | Some e :: fs =>
      _ <- set_db (with_faults d fs) ;;
      _ <- log (EvDB op (Some e)) ;;
      ret (Some e, dflt)
  | _ =>
      let '(err, a, d') := run (with_faults d (tl (faults d))) in
      _ <- set_db d' ;;
      _ <- log (EvDB op err) ;;
      ret (err, a)
  end.

(** [db.Create(echo)]: the row gets the next id unless it brings one, the
    creation time unless it brings one, and its images are stored under its
    id. *)
Definition db_Create (e : Echo) : M (option Err * Echo) :=
  db_call OpCreate e (fun d =>
    let id := if ID e =? 0 then next_id d else ID e in
    if existsb (fun r => ID r =? id) (echos d) then (Some ErrDuplicatedKey, e, d)
    else
      let at_ := if CreatedAt e =? 0 then now d else CreatedAt e in
      let imgs := map (fun i => with_MessageID i id) (Images e) in
      let row := mkEcho id (Content e) [] (Private e) (Extension e)
                        (ExtensionType e) (FavCount e) at_ in
      (None, with_Images row imgs,
       with_tables d (echos d ++ [row]) (images d ++ imgs)
                   (Z.max (next_id d) (id + 1)))).

(** [query.Count(&total)]. *)
Definition db_Count (q : list Cond) : M (option Err * Z) :=
  db_call (OpCount q) 0 (fun d => (None, count_rows d q, d)).

(** [.Preload("Images").Limit(l).Offset(o).Order("created_at DESC").Find(&echos)]. *)
Definition db_Find (q : list Cond) (limit offset : Z) : M (option Err * list Echo) :=
  db_call (OpFind q limit offset) [] (fun d => (None, find_rows d q limit offset, d)).

(** [db.Preload("Images").First(&echo, id)]. *)
Definition db_First (id : Z) : M (option Err * option Echo) :=
  db_call (OpFirst id) None (fun d =>
    match find (fun r => ID r =? id) (echos d) with
    | Some r => (None, Some (preload d r), d)
    | None => (Some ErrRecordNotFound, None, d)
    end).

(** [db.Where("message_id = ?", id).Delete(&model.Image{})]. *)
Definition db_DeleteImages (id : Z) : M (option Err * unit) :=
  db_call (OpDeleteImages id) tt (fun d =>
    (None, tt,
     with_tables d (echos d) (filter (fun i => negb (MessageID i =? id)) (images d))
                 (next_id d))).

(** [db.Delete(&echo, id)], with [RowsAffected]. *)
Definition db_DeleteEcho (id : Z) : M (option Err * Z) :=
  db_call (OpDeleteEcho id) 0 (fun d =>
    (None,
     Z.of_nat (List.length (filter (fun r => ID r =? id) (echos d))),
     with_tables d (filter (fun r => negb (ID r =? id)) (echos d)) (images d)
                 (next_id d))).

(** [db.Begin()]: the handle of the transaction remembers the tables to go
    back to. *)
Definition db_Begin : M (option Err * DB) :=
  d0 <- get_db ;;
  db_call OpBegin d0 (fun d => (None, d, d)).

Definition db_Rollback (snap : DB) : M unit :=
  d <- get_db ;;
  _ <- set_db (with_tables d (echos snap) (images snap) (next_id snap)) ;;
  log (EvDB OpRollback None).

(** [tx.Commit()]: a commit that fails leaves the tables as they were when
    the transaction began. *)
Definition db_Commit (snap : DB) : M (option Err) :=
  d <- get_db ;;
  match faults d with
  | Some e :: fs =>
      _ <- set_db (with_faults (with_tables d (echos snap) (images snap) (next_id snap)) fs) ;;
      _ <- log (EvDB OpCommit (Some e)) ;;
      ret (Some e)
  | _ =>
      _ <- set_db (with_faults d (tl (faults d))) ;;
      _ <- log (EvDB OpCommit None) ;;
      ret None
  end.

(** [tx.Model(&model.Echo{}).Where("id = ?", id).Updates(map...)] on the
    four columns content, private, extension and extension_type. *)
Definition db_Updates (e : Echo) : M (option Err * unit) :=
  db_call (OpUpdates (ID e)) tt (fun d =>
    (None, tt,
     with_tables d
       (map (fun r => if ID r =? ID e
                      then mkEcho (ID r) (Content e) (Images r) (Private e)
                                  (Extension e) (ExtensionType e)
                                  (FavCount r) (CreatedAt r)
                      else r) (echos d))
       (images d) (next_id d))).

(** [tx.Create(&images)]. *)
Definition db_CreateImages (imgs : list Image) : M (option Err * unit) :=
  db_call OpCreateImages tt (fun d =>
    (None, tt, with_tables d (echos d) (images d ++ imgs) (next_id d))).

(** [Select("count(*) > 0").Where("id = ?", id).Find(&exists)]. *)
Definition db_Exists (id : Z) : M (option Err * bool) :=
  db_call (OpExists id) false (fun d =>
    (None, existsb (fun r => ID r =? id) (echos d), d)).

(** [UpdateColumn("fav_count", gorm.Expr("fav_count + ?", 1))]. *)
Definition db_FavIncr (id : Z) : M (option Err * unit) :=
  db_call (OpFavIncr id) tt (fun d =>
    (None, tt,
     with_tables d
       (map (fun r => if ID r =? id
                      then mkEcho (ID r) (Content r) (Images r) (Private r)
                                  (Extension r) (ExtensionType r)
                                  (FavCount r + 1) (CreatedAt r)
                      else r) (echos d))
       (images d) (next_id d))).

(** The cache seen from the repository. *)
Definition repo_cache_Get (k : string) : M (option PageQueryResult) :=
  fun s =>
    let (r, c) := cache_Get k (cache s) in
    (r, mkState (db s) c (echoKeyList s) (trace s)).

Definition repo_cache_Set (k : string) (v : PageQueryResult) (cost : Z)
  : M (option CacheErr) :=
  fun s =>
    let (r, c) := cache_Set k v cost (cache s) in
    (r, mkState (db s) c (echoKeyList s) (trace s)).

(** [echoKeyList = append(echoKeyList, cacheKey)]. *)
Definition append_echoKeyList (k : string) : M unit :=
  fun s => (tt, mkState (db s) (cache s) (echoKeyList s ++ [k]) (trace s)).

(** Modelled from the spec: [ClearEchoPageCache] is not part of the sources
    at hand.  Every key on the list is deleted from the cache, then the list
    is emptied. *)
Definition ClearEchoPageCache : M unit :=
  fun s =>
    (tt, mkState (db s)
                 (fold_left (fun c k => cache_Delete k c) (echoKeyList s) (cache s))
                 []
                 (trace s ++ [EvPurge])).

(* ===================================================================== *)
(** ** The repository methods *)

(** [CreateEcho]: the content is trimmed in the caller's struct before the
    insert; the cache is purged once the insert has succeeded.  The echo as
    the caller finds it afterwards is returned next to the error. *)
Definition CreateEcho (echo : Echo) : M (option Err * Echo) :=
  let echo := with_Content echo (TrimSpace (Content echo)) in
  '(err, echo') <- db_Create echo ;;
  match err with
  | Some e => ret (Some e, echo')
  | None =>
      _ <- ClearEchoPageCache ;;
      ret (None, echo')
  end.

(** The clauses of the page query. *)
Definition page_query (search : string) (showPrivate : bool) : list Cond :=
  (if (search =? "")%string then [] else [CondContentLike ("%" ++ search ++ "%")])
  ++ (if showPrivate then [] else [CondPrivateEq false]).

(** [query.Count(&total)...Find(&echos)]: one chained call; gorm skips the
    [Find] when the [Count] has failed, and the repository looks at neither
    error. *)
Definition count_then_find (q : list Cond) (limit offset : Z)
  : M (list Echo * Z) :=
  '(cerr, total) <- db_Count q ;;
  match cerr with
  | Some _ => ret ([], total)
  | None =>
      '(_, found) <- db_Find q limit offset ;;
      ret (found, total)
  end.

(** [GetEchosByPage]. *)
Definition GetEchosByPage (page pageSize : Z) (search : string)
           (showPrivate : bool) : M (list Echo * Z) :=
  let cacheKey := GetEchoPageCacheKey page pageSize search showPrivate in
  cached <- repo_cache_Get cacheKey ;;
  match cached with
  | Some cachedResult => ret (Items cachedResult, Total cachedResult)
  | None =>
      let offset := int_mul (int_sub page 1) pageSize in
      '(found, total) <- count_then_find (page_query search showPrivate)
                                         pageSize offset ;;
      _ <- append_echoKeyList cacheKey ;;
      _ <- repo_cache_Set cacheKey (mkPage found total) 1 ;;
      ret (found, total)
  end.

(** [GetEchosById]: the pair is the Go pair (pointer, error). *)
Definition GetEchosById (id : Z) : M (option Echo * option Err) :=
  '(err, echo) <- db_First id ;;
  match err with
  | Some e =>
      if errors_Is e ErrRecordNotFound then ret (None, None)
      else ret (None, Some e)
  | None => ret (echo, None)
  end.

(** [DeleteEchoById]. *)
Definition DeleteEchoById (id : Z) : M (option Err) :=
  _ <- db_DeleteImages id ;;
  '(err, rowsAffected) <- db_DeleteEcho id ;;
  match err with
  | Some e => ret (Some e)
  | None =>
      if rowsAffected =? 0 then ret (Some ErrRecordNotFound)
      else
        _ <- ClearEchoPageCache ;;
        ret None
  end.

(** [UpdateEcho]: the cache is purged first, then the transaction runs. *)
Definition UpdateEcho (echo : Echo) : M (option Err) :=
  _ <- ClearEchoPageCache ;;
  '(berr, tx) <- db_Begin ;;
  match berr with
  | Some e => ret (Some e)
  | None =>
      '(derr, _) <- db_DeleteImages (ID echo) ;;
      match derr with
      | Some e => _ <- db_Rollback tx ;; ret (Some e)
      | None =>
          '(uerr, _) <- db_Updates echo ;;
          match uerr with
          | Some e => _ <- db_Rollback tx ;; ret (Some e)
          | None =>
              match Images echo with
              | [] => db_Commit tx
              | _ :: _ =>
                  let imgs := map (fun img => with_MessageID img (ID echo))
                                  (Images echo) in
                  '(cerr, _) <- db_CreateImages imgs ;;
                  match cerr with
                  | Some e => _ <- db_Rollback tx ;; ret (Some e)
                  | None => db_Commit tx
                  end
              end
          end
      end
  end.

(** [LikeEcho]. *)
Definition LikeEcho (id : Z) : M (option Err) :=
  '(err, exists_) <- db_Exists id ;;
  match err with
  | Some e => ret (Some e)
  | None =>
      if negb exists_ then ret (Some ErrEchoNotFound)
      else
        '(uerr, _) <- db_FavIncr id ;;
        match uerr with
        | Some e => ret (Some e)
        | None =>
            _ <- ClearEchoPageCache ;;
            ret None
        end
  end.

(** The four writes of the item collection, as one type. *)
Inductive Mutation :=
| MCreate (echo : Echo)
| MDelete (id : Z)
| MUpdate (echo : Echo)
| MLike (id : Z).

Definition run_mutation (m : Mutation) : M (option Err) :=
  match m with
  | MCreate e => '(err, _) <- CreateEcho e ;; ret err
  | MDelete id => DeleteEchoById id
  | MUpdate e => UpdateEcho e
  | MLike id => LikeEcho id
  end.

(** A repository that has just been built: empty tables, empty cache. *)
Definition init_db (lk : string -> string -> bool) : DB :=
  mkDB [] [] 1 0 [] lk.

Definition init_state (cap : Z) (lk : string -> string -> bool) : State :=
  mkState (init_db lk) (empty_cache cap) [] [].

(** Every key resident in the cache is on the key list. *)
Definition tracked (s : State) : Prop :=
  forall k, resident k (cache s) = true -> In k (echoKeyList s).

(** The events an operation adds to the trace. *)
Definition new_events (s s' : State) : list Event :=
  skipn (List.length (trace s)) (trace s').

Definition is_purge (ev : Event) : bool :=
  match ev with EvPurge => true | _ => false end.

Definition is_db_event (ev : Event) : bool :=
  match ev with EvDB _ _ => true | _ => false end.

(** A statement that changes the tables and came back without error. *)
Definition is_committed_write (ev : Event) : bool :=
  match ev with
  | EvDB OpCreate None
  | EvDB (OpDeleteEcho _) None
  | EvDB OpCommit None
  | EvDB (OpFavIncr _) None => true
  | _ => false
  end.

(** No purge comes before the first committed write. *)
Fixpoint purge_after_write (evs : list Event) : bool :=
  match evs with
  | [] => true
  | ev :: r =>
      if is_committed_write ev then true
      else if is_purge ev then false
      else purge_after_write r
  end.

(** A LIKE operator for the examples: the pattern [%t%] holds of the texts
    that contain [t]. *)
Fixpoint has_prefix (p s : string) : bool :=
  match p, s with
  | EmptyString, _ => true
  | String a p', String b s' => (a =? b)%char && has_prefix p' s'
  | String _ _, EmptyString => false
  end.

Fixpoint contains (t s : string) : bool :=
  has_prefix t s
  || match s with
     | EmptyString => false
     | String _ s' => contains t s'
     end.

Definition like_contains (pattern text : string) : bool :=
  match pattern with
  | String "%" rest =>
      match srev rest with
      | String "%" mid => contains (srev mid) text
      | _ => (pattern =? text)%string
      end
  | _ => (pattern =? text)%string
  end.

(** The driver reports no failure for the next [n] statements. *)
Definition driver_ok (n : nat) (d : DB) : Prop :=
  Forall (fun f => f = None) (firstn n (faults d)).

(** The rows a page query is about, in the words of the interface: the
    content contains the search term (any content for the empty term) and
    the row is public unless private rows are shown. *)
Definition visible_match (d : DB) (search : string) (showPrivate : bool)
           (e : Echo) : bool :=
  ((search =? "")%string || like d ("%" ++ search ++ "%") (Content e))
  && (showPrivate || negb (Private e)).

(** The cache after every key of [ks] has been deleted. *)
Definition purged (ks : list string) (c : CacheStore PageQueryResult)
  : CacheStore PageQueryResult :=
  fold_left (fun c k => cache_Delete k c) ks c.

(** The driver's coming verdicts, set from outside. *)
Definition with_driver (s : State) (fs : list (option Err)) : State :=
  mkState (with_faults (db s) fs) (cache s) (echoKeyList s) (trace s).

(** A run of paginated reads, results dropped. *)
Fixpoint run_reads (ds : list (Z * Z * string * bool)) (s : State) : State :=
  match ds with
  | [] => s
  | (page, pageSize, search, showPrivate) :: r =>
      run_reads r (snd (GetEchosByPage page pageSize search showPrivate s))
  end.

(** A small repository for the examples: room for four pages, and an echo
    as a client would post it. *)
Definition demo_state : State := init_state 4 like_contains.

Definition demo_echo : Echo :=
  mkEcho 0 "  hello world  " [] false "" "" 0 0.

Definition demo_private : Echo :=
  mkEcho 0 "a private note" [] true "" "" 0 0.

(** The small repository after the two echos have been created. *)
Definition demo_filled : State :=
  snd (run_mutation (MCreate demo_private)
                    (snd (run_mutation (MCreate demo_echo) demo_state))).

(** The first page of the public echos, read from [demo_filled]. *)
Definition demo_read : list Echo * Z * State :=
  GetEchosByPage 1 10 "" false demo_filled.

(** An edit of the first echo of [demo_filled]. *)
Definition demo_update : Echo :=
  mkEcho 1 "hello again" [] false "" "" 0 0.

(** No byte of [s] is a colon. *)
Fixpoint no_colon (s : string) : bool :=
  match s with
  | EmptyString => true
  | String c r => negb (c =? ":")%char && no_colon r
  end.

(** ** Runs of the repository *)

(** A call of a client of the repository. *)
Inductive Call :=
| CallRead (page pageSize : Z) (search : string) (showPrivate : bool)
| CallById (id : Z)
| CallWrite (m : Mutation).

Definition run_call (c : Call) (s : State) : State :=
  match c with
  | CallRead page pageSize search showPrivate =>
      snd (GetEchosByPage page pageSize search showPrivate s)
  | CallById id => snd (GetEchosById id s)
  | CallWrite m => snd (run_mutation m s)
  end.

(** A run: before each call the driver's coming verdicts are whatever the
    environment makes them. *)
Fixpoint run_calls (cs : list (list (option Err) * Call)) (s : State) : State :=
  match cs with
  | [] => s
  | (fs, c) :: r => run_calls r (run_call c (with_driver s fs))
  end.

(** A run during which the driver never fails. *)
Definition quiet (cs : list Call) : list (list (option Err) * Call) :=
  map (fun c => ([], c)) cs.

(** Every page in the cache is what the store answers now to the query
    its key stands for. *)
Definition cache_fresh (s : State) : Prop :=
  forall e, In e (entries (cache s)) ->
    exists page pageSize search showPrivate,
      ekey e = GetEchoPageCacheKey page pageSize search showPrivate
      /\ evalue e
         = mkPage (find_rows (db s) (page_query search showPrivate) pageSize
                             (int_mul (int_sub page 1) pageSize))
                  (count_rows (db s) (page_query search showPrivate)).

(** No page cached for a read without private rows holds a private row. *)
Definition cache_public (s : State) : Prop :=
  forall e page pageSize search,
    In e (entries (cache s)) ->
    ekey e = GetEchoPageCacheKey page pageSize search false ->
    Forall (fun x => Private x = false) (Items (evalue e)).

(** The store [d'] answers every query as [d] does. *)
Definition same_answers (d d' : DB) : Prop :=
  forall q limit offset,
    find_rows d' q limit offset = find_rows d q limit offset
    /\ count_rows d' q = count_rows d q.

(** Reading the pages 1 to [n] one after the other; the items in the order
    they came. *)
Fixpoint read_pages (n : nat) (pageSize : Z) (search : string)
         (showPrivate : bool) (s : State) : list Echo * State :=
  match n with
  | O => ([], s)
  | S n' =>
      let '(before, s1) := read_pages n' pageSize search showPrivate s in
      let '(items, _, s2) :=
        GetEchosByPage (Z.of_nat (S n')) pageSize search showPrivate s1 in
      ((before ++ items)%list, s2)
  end.

(** The row [e] after one like. *)
Definition liked (e : Echo) : Echo :=
  mkEcho (ID e) (Content e) (Images e) (Private e) (Extension e)
         (ExtensionType e) (FavCount e + 1) (CreatedAt e).

(* ===================================================================== *)
(** * Lemmas *)

(** ** Strings *)

Lemma sapp_nil_r (s : string) : s ++ "" = s.
Proof. induction s as [|c s IH]; simpl; [reflexivity | now rewrite IH]. Qed.

Lemma sapp_assoc (a b c : string) : (a ++ b) ++ c = a ++ (b ++ c).
Proof. induction a as [|x a IH]; simpl; [reflexivity | now rewrite IH]. Qed.

Lemma sapp_length (a b : string) :
  String.length (a ++ b) = (String.length a + String.length b)%nat.
Proof. induction a as [|x a IH]; simpl; [reflexivity | now rewrite IH]. Qed.

Lemma srev_onto_app (s acc : string) : srev_onto s acc = srev s ++ acc.
Proof.
  unfold srev. revert acc.
  induction s as [|c s IH]; intro acc; simpl; [reflexivity|].
  rewrite (IH (String c "")), (IH (String c acc)), sapp_assoc. reflexivity.
Qed.

Lemma srev_cons (c : ascii) (s : string) : srev (String c s) = srev s ++ String c "".
Proof. unfold srev at 1. simpl. apply srev_onto_app. Qed.

Lemma srev_app (a b : string) : srev (a ++ b) = srev b ++ srev a.
Proof.
  induction a as [|c a IH]; simpl.
  - now rewrite sapp_nil_r.
  - now rewrite !srev_cons, IH, sapp_assoc.
Qed.

Lemma srev_involutive (s : string) : srev (srev s) = s.
Proof.
  induction s as [|c s IH]; [reflexivity|].
  rewrite srev_cons, srev_app, IH. reflexivity.
Qed.

Lemma sapp_inv_head (p a b : string) : p ++ a = p ++ b -> a = b.
Proof.
  induction p as [|c p IH]; simpl; intro H; [exact H|].
  injection H as H. auto.
Qed.

(** ** The cache store: capacity bound *)

Section CacheFacts.
Context {V : Type}.
Implicit Types (l : list (Entry V)) (c : CacheStore V).

Lemma used_app l1 l2 : used (l1 ++ l2) = used l1 + used l2.
Proof. induction l1 as [|e l1 IH]; simpl; lia. Qed.

Lemma evict_fits budget l : 0 <= budget -> used (evict budget l) <= budget.
Proof.
  intro Hb. induction l as [|e l IH]; [simpl; lia|].
  cbn [evict]. destruct (used (e :: l) <=? budget) eqn:E.
  - apply Z.leb_le in E. exact E.
  - exact IH.
Qed.

Lemma evict_suffix budget l : exists gone, l = (gone ++ evict budget l)%list.
Proof.
  induction l as [|e l [gone IH]].
  - exists []. reflexivity.
  - cbn [evict]. destruct (used (e :: l) <=? budget).
    + exists []. reflexivity.
    + exists (e :: gone). simpl. now rewrite <- IH.
Qed.

Lemma cache_Set_capacity k v cost c :
  capacity (snd (cache_Set k v cost c)) = capacity c.
Proof.
  unfold cache_Set.
  destruct (cost <=? 0); [reflexivity|].
  destruct (capacity c <? cost); reflexivity.
Qed.

Lemma cache_Set_bound k v cost c :
  used (entries c) <= capacity c ->
  used (entries (snd (cache_Set k v cost c))) <= capacity c.
Proof.
  intro Hc. unfold cache_Set.
  destruct (cost <=? 0) eqn:E0; [exact Hc|].
  destruct (capacity c <? cost) eqn:E1; [exact Hc|].
  apply Z.ltb_ge in E1. cbn [snd entries].
  rewrite used_app. cbn [used ecost].
  pose proof (evict_fits (capacity c - cost) (remove_key k (entries c))).
  lia.
Qed.

Lemma run_sets_capacity ops c : capacity (run_sets ops c) = capacity c.
Proof.
  revert c. induction ops as [|[[k v] cost] ops IH]; intro c; simpl.
  - reflexivity.
  - rewrite IH. apply cache_Set_capacity.
Qed.

Lemma run_sets_bound ops c :
  used (entries c) <= capacity c ->
  used (entries (run_sets ops c)) <= capacity c.
Proof.
  revert c. induction ops as [|[[k v] cost] ops IH]; intros c Hc; simpl.
  - exact Hc.
  - rewrite <- (cache_Set_capacity k v cost c).
    apply IH. rewrite cache_Set_capacity. now apply cache_Set_bound.
Qed.

Lemma lookup_remove_key k l : lookup k (remove_key k l) = None.
Proof.
  unfold lookup, remove_key. induction l as [|e l IH]; simpl; [reflexivity|].
  destruct (ekey e =? k)%string eqn:E; simpl; [exact IH|].
  now rewrite E.
Qed.

Lemma lookup_app_none k l1 l2 :
  lookup k l1 = None -> lookup k (l1 ++ l2) = lookup k l2.
Proof.
  unfold lookup. induction l1 as [|e l1 IH]; simpl; [reflexivity|].
  destruct (ekey e =? k)%string; [discriminate | exact IH].
Qed.

Lemma lookup_evict_none budget k l :
  lookup k l = None -> lookup k (evict budget l) = None.
Proof.
  intro H. destruct (evict_suffix budget l) as [gone Hg].
  rewrite Hg in H. clear Hg. unfold lookup in *.
  induction gone as [|e gone IH]; simpl in H; [exact H|].
  destruct (ekey e =? k)%string; [discriminate | auto].
Qed.

Lemma lookup_last k v cost l :
  lookup k l = None -> lookup k (l ++ [mkEntry k v cost]) = Some (mkEntry k v cost).
Proof.
  intro H. rewrite lookup_app_none by exact H.
  unfold lookup. simpl. now rewrite String.eqb_refl.
Qed.

Lemma lookup_some_key k l e : lookup k l = Some e -> ekey e = k.
Proof.
  unfold lookup. intro H. apply find_some in H. destruct H as [_ H].
  now apply String.eqb_eq.
Qed.

Lemma resident_lookup k c :
  resident k c = true <-> lookup k (entries c) <> None.
Proof.
  unfold resident, lookup. induction (entries c) as [|e l IH]; simpl.
  - split; [discriminate | intro H; now contradiction H].
  - destruct (ekey e =? k)%string; simpl; [|exact IH].
    split; [discriminate | reflexivity].
Qed.

(** A [Set] that is accepted makes its entry resident, behind
    everything else in eviction order. *)
Lemma cache_Set_accepts k v cost c :
  0 < cost <= capacity c ->
  fst (cache_Set k v cost c) = None
  /\ lookup k (entries (snd (cache_Set k v cost c))) = Some (mkEntry k v cost).
Proof.
  intros [H0 H1]. unfold cache_Set.
  destruct (cost <=? 0) eqn:E0; [apply Z.leb_le in E0; lia|].
  destruct (capacity c <? cost) eqn:E1; [apply Z.ltb_lt in E1; lia|].
  split; [reflexivity|]. cbn [snd entries].
  apply lookup_last, lookup_evict_none, lookup_remove_key.
Qed.

Lemma cache_Set_too_large k v cost c :
  capacity c < cost ->
  fst (cache_Set k v cost c) <> None /\ snd (cache_Set k v cost c) = c.
Proof.
  intro H. unfold cache_Set.
  destruct (cost <=? 0); [split; [discriminate | reflexivity]|].
  destruct (capacity c <? cost) eqn:E1; [split; [discriminate | reflexivity]|].
  apply Z.ltb_ge in E1. lia.
Qed.
End CacheFacts.

(** C4.  Capacity bound of the cache store: along every sequence of [Set]
    calls on a store whose resident cost is within its capacity, the sum of
    the costs of the resident entries stays within the capacity; a [Set]
    whose cost is positive and within the capacity is accepted (after
    evicting until it fits) and its entry is resident; a [Set] whose cost
    alone exceeds the capacity fails with the entry-too-large error for a
    positive cost and leaves the store as it was. *)
Theorem cache_capacity_bound (V : Type) (c : CacheStore V)
        (ops : list (string * V * Z)) :
  used (entries c) <= capacity c ->
  used (entries (run_sets ops c)) <= capacity (run_sets ops c)
  /\ (forall k v cost,
         0 < cost <= capacity (run_sets ops c) ->
         fst (cache_Set k v cost (run_sets ops c)) = None
         /\ lookup k (entries (snd (cache_Set k v cost (run_sets ops c))))
            = Some (mkEntry k v cost)
         /\ used (entries (snd (cache_Set k v cost (run_sets ops c))))
            <= capacity c)
  /\ (forall k v cost,
         0 < cost -> capacity (run_sets ops c) < cost ->
         cache_Set k v cost (run_sets ops c)
         = (Some ErrEntryTooLarge, run_sets ops c)).
Proof.
  intro Hc. pose proof (run_sets_bound ops c Hc) as Hb.
  rewrite run_sets_capacity. split; [exact Hb|]. split.
  - intros k v cost Hcost.
    destruct (cache_Set_accepts k v cost (run_sets ops c)) as [Hf Hl].
    + now rewrite run_sets_capacity.
    + split; [exact Hf|]. split; [exact Hl|].
      rewrite <- (run_sets_capacity ops c).
      apply cache_Set_bound. now rewrite run_sets_capacity.
  - intros k v cost H0 H1. unfold cache_Set.
    destruct (cost <=? 0) eqn:E0; [apply Z.leb_le in E0; lia|].
    rewrite run_sets_capacity.
    destruct (capacity c <? cost) eqn:E1; [reflexivity|].
    apply Z.ltb_ge in E1. lia.
Qed.

Lemma cache_capacity_bound_witness :
  used (entries (run_sets [("a", 1%nat, 2); ("b", 2%nat, 2); ("c", 3%nat, 5); ("d", 4%nat, 1)]
                          (empty_cache 3))) <= 3
  /\ map ekey (entries (run_sets [("a", 1%nat, 2); ("b", 2%nat, 2); ("c", 3%nat, 5); ("d", 4%nat, 1)]
                                 (empty_cache 3))) = ["b"; "d"].
Proof.
  split.
  - pose proof (cache_capacity_bound nat (empty_cache 3)
                  [("a", 1%nat, 2); ("b", 2%nat, 2); ("c", 3%nat, 5); ("d", 4%nat, 1)]) as H.
    simpl in H. apply H. lia.
  - reflexivity.
Defined.

(** ** The key builder: one key per descriptor *)

Lemma no_colon_uint (d : Decimal.uint) :
  no_colon (NilEmpty.string_of_uint d) = true.
Proof. induction d; simpl; auto. Qed.

Lemma no_colon_fmt_d (z : Z) : no_colon (fmt_d z) = true.
Proof.
  unfold fmt_d, NilEmpty.string_of_int.
  destruct (Z.to_int z); simpl; apply no_colon_uint.
Qed.

Lemma fmt_d_inj (a b : Z) : fmt_d a = fmt_d b -> a = b.
Proof.
  unfold fmt_d. intro H.
  apply (f_equal NilEmpty.int_of_string) in H.
  rewrite !NilEmpty.isi in H. injection H as H.
  apply (f_equal Z.of_int) in H. now rewrite !DecimalZ.of_to in H.
Qed.

Lemma fmt_t_inj (a b : bool) : fmt_t a = fmt_t b -> a = b.
Proof. destruct a, b; simpl; intro H; try reflexivity; discriminate. Qed.

(** Two colon-free fields followed by a colon: the first colon of the whole
    string ends the field. *)
Lemma colon_split (a b x y : string) :
  no_colon a = true -> no_colon b = true ->
  a ++ String ":" x = b ++ String ":" y -> a = b /\ x = y.
Proof.
  revert b. induction a as [|c a IH]; intros [|d b] Ha Hb H; simpl in *.
  - injection H as H. auto.
  - injection H as Hc _. subst d. simpl in Hb. discriminate.
  - injection H as Hc _. subst c. simpl in Ha. discriminate.
  - injection H as Hc H. subst d.
    apply andb_true_iff in Ha. apply andb_true_iff in Hb.
    destruct (IH b) as [E1 E2]; try tauto. subst. auto.
Qed.

(** The search term is followed by a colon and [true] or [false]; whatever
    the term holds, the flag is read back from the end. *)
Lemma flag_suffix_differs (a b : string) : a ++ ":true" <> b ++ ":false".
Proof.
  revert a. induction b as [|d b IH]; intros a H.
  - destruct a as [|c1 a]; simpl in H; [discriminate|].
    injection H as _ H. destruct a as [|c2 a]; simpl in H; [discriminate|].
    apply (f_equal String.length) in H. simpl in H.
    rewrite sapp_length in H. simpl in H. lia.
  - destruct a as [|c a]; simpl in H.
    + injection H as _ H.
      apply (f_equal String.length) in H. rewrite sapp_length in H.
      simpl in H. lia.
    + injection H as _ H. exact (IH a H).
Qed.

Lemma flag_suffix_inj (a b : string) (u v : bool) :
  a ++ String ":" (fmt_t u) = b ++ String ":" (fmt_t v) -> a = b /\ u = v.
Proof.
  destruct u, v; simpl; intro H.
  - split; [|reflexivity].
    apply (f_equal srev) in H. rewrite !srev_app in H.
    apply sapp_inv_head in H. apply (f_equal srev) in H.
    now rewrite !srev_involutive in H.
  - exfalso. exact (flag_suffix_differs a b H).
  - exfalso. exact (flag_suffix_differs b a (eq_sym H)).
  - split; [|reflexivity].
    apply (f_equal srev) in H. rewrite !srev_app in H.
    apply sapp_inv_head in H. apply (f_equal srev) in H.
    now rewrite !srev_involutive in H.
Qed.

(** C7.  The cache key is a function of the descriptor and determines it:
    two descriptors get the same key exactly when they agree on the page,
    the page size, the search term and the visibility flag. *)
Theorem GetEchoPageCacheKey_injective
        (page1 pageSize1 : Z) (search1 : string) (showPrivate1 : bool)
        (page2 pageSize2 : Z) (search2 : string) (showPrivate2 : bool) :
  GetEchoPageCacheKey page1 pageSize1 search1 showPrivate1
  = GetEchoPageCacheKey page2 pageSize2 search2 showPrivate2
  <-> page1 = page2 /\ pageSize1 = pageSize2 /\ search1 = search2
      /\ showPrivate1 = showPrivate2.
Proof.
  split.
  - unfold GetEchoPageCacheKey. intro H.
    apply sapp_inv_head in H.
    apply colon_split in H; try apply no_colon_fmt_d.
    destruct H as [Hp H]. apply fmt_d_inj in Hp.
    apply colon_split in H; try apply no_colon_fmt_d.
    destruct H as [Hs H]. apply fmt_d_inj in Hs.
    apply flag_suffix_inj in H. destruct H as [Hq Hv].
    auto.
  - intros (-> & -> & -> & ->). reflexivity.
Qed.

(** ** [strings.TrimSpace] *)

Ltac bytes :=
  unfold start_byte in *; unfold asciiSpace, space2, space3 in *; cbv zeta in *;
  repeat match goal with
         | |- _ /\ _ => split
         | |- _ = false => apply not_true_is_false; intro
         end;
  repeat rewrite ?andb_true_iff, ?orb_true_iff, ?N.eqb_eq, ?N.leb_le in *; lia.

(** The encodings are prefix-free and suffix-free, and no rune begins with
    a byte that continues another. *)
Lemma space2_first c1 c2 : space2 c1 c2 = true -> asciiSpace c1 = false.
Proof. intro H. bytes. Qed.

Lemma space3_first c1 c2 c3 :
  space3 c1 c2 c3 = true -> asciiSpace c1 = false /\ space2 c1 c2 = false.
Proof. intro H. bytes. Qed.

Lemma space2_last c1 c2 : space2 c1 c2 = true -> asciiSpace c2 = false.
Proof. intro H. bytes. Qed.

Lemma space3_last c1 c2 c3 :
  space3 c1 c2 c3 = true -> asciiSpace c3 = false /\ space2 c2 c3 = false.
Proof. intro H. bytes. Qed.

Lemma start_not_second c p : start_byte p = true -> space2 c p = false.
Proof. intro H. bytes. Qed.

Lemma start_not_middle c1 p x : start_byte p = true -> space3 c1 p x = false.
Proof. intro H. bytes. Qed.

Lemma start_not_third c1 c2 p : start_byte p = true -> space3 c1 c2 p = false.
Proof. intro H. bytes. Qed.

Lemma all_space_head p r : all_space (String p r) -> start_byte p = true.
Proof. intro H. inversion H; subst; bytes. Qed.

Lemma all_space_app a b : all_space a -> all_space b -> all_space (a ++ b).
Proof.
  induction 1; intro Hb; simpl; auto using all_space_1, all_space_2, all_space_3.
Qed.

Lemma trimLeft_app_space pre s : all_space pre -> trimLeft (pre ++ s) = trimLeft s.
Proof.
  induction 1 as [|c r Hc _ IH|c1 c2 r H2 _ IH|c1 c2 c3 r H3 _ IH]; simpl.
  - reflexivity.
  - now rewrite Hc.
  - now rewrite (space2_first _ _ H2), H2.
  - destruct (space3_first _ _ _ H3) as [E1 E2]. now rewrite E1, E2, H3.
Qed.

Lemma trimLeftRev_app_space w t :
  all_space w -> trimLeftRev (srev w ++ t) = trimLeftRev t.
Proof.
  intro H. revert t.
  induction H as [|c r Hc _ IH|c1 c2 r H2 _ IH|c1 c2 c3 r H3 _ IH]; intro t.
  - reflexivity.
  - rewrite srev_cons, sapp_assoc, IH. simpl. now rewrite Hc.
  - rewrite !srev_cons, !sapp_assoc, IH. simpl.
    now rewrite (space2_last _ _ H2), H2.
  - rewrite !srev_cons, !sapp_assoc, IH. simpl.
    destruct (space3_last _ _ _ H3) as [E1 E2]. now rewrite E1, E2, H3.
Qed.

Lemma trimLeft_decomp s : exists pre, all_space pre /\ s = pre ++ trimLeft s.
Proof.
  functional induction (trimLeft s);
    try (exists ""; split; [constructor | reflexivity]).
  - destruct IHs0 as (pre & Hp & E).
    exists (String c1 pre). split; [now constructor|]. simpl. now rewrite <- E.
  - destruct IHs0 as (pre & Hp & E).
    exists (String c1 (String c2 pre)). split; [now constructor|].
    simpl. now rewrite <- E.
  - destruct IHs0 as (pre & Hp & E).
    exists (String c1 (String c2 (String c3 pre))). split; [now constructor|].
    simpl. now rewrite <- E.
Qed.

Lemma trimLeft_no_leading s : starts_with_space (trimLeft s) = false.
Proof.
  functional induction (trimLeft s); try assumption; simpl;
    repeat match goal with H : _ = false |- _ => rewrite H end; reflexivity.
Qed.

Lemma trimLeftRev_decomp t :
  exists w, all_space w /\ t = srev w ++ trimLeftRev t.
Proof.
  functional induction (trimLeftRev t);
    try (exists ""; split; [constructor | reflexivity]).
  - destruct IHs as (w & Hw & E).
    exists (w ++ String c1 ""). split.
    + apply all_space_app; [exact Hw|]. constructor; [assumption | constructor].
    + rewrite srev_app. simpl. now rewrite <- E.
  - destruct IHs as (w & Hw & E).
    exists (w ++ String c2 (String c1 "")). split.
    + apply all_space_app; [exact Hw|]. apply all_space_2; [assumption | constructor].
    + rewrite srev_app. simpl. now rewrite <- E.
  - destruct IHs as (w & Hw & E).
    exists (w ++ String c3 (String c2 (String c1 ""))). split.
    + apply all_space_app; [exact Hw|]. apply all_space_3; [assumption | constructor].
    + rewrite srev_app. simpl. now rewrite <- E.
Qed.

Lemma trimLeftRev_no_leading t : starts_with_space_rev (trimLeftRev t) = false.
Proof.
  functional induction (trimLeftRev t); try assumption; simpl;
    repeat match goal with H : _ = false |- _ => rewrite H end; reflexivity.
Qed.

Lemma trimLeft_all_space s : all_space s -> trimLeft s = "".
Proof.
  intro H. rewrite <- (sapp_nil_r s). now rewrite trimLeft_app_space.
Qed.

Lemma trimLeft_empty s : trimLeft s = "" -> all_space s.
Proof.
  intro H. destruct (trimLeft_decomp s) as (pre & Hp & E).
  rewrite H, sapp_nil_r in E. now subst.
Qed.

(** White space appended to a string whose trimmed form is not empty is
    not reached by the left trim. *)
Lemma trimLeft_app_nonspace s post :
  all_space post -> trimLeft s <> "" -> trimLeft (s ++ post) = trimLeft s ++ post.
Proof.
  intros Hp. functional induction (trimLeft s); intro Hne.
  - now contradiction Hne.
  - simpl. rewrite e0. now apply IHs0.
  - simpl. rewrite e0. destruct post as [|p1 post]; [reflexivity|].
    pose proof (all_space_head _ _ Hp) as Hs.
    rewrite (start_not_second c1 p1 Hs).
    destruct post as [|p2 post]; [reflexivity|].
    now rewrite (start_not_middle c1 p1 p2 Hs).
  - simpl. rewrite e0, e2. now apply IHs0.
  - simpl. rewrite e0, e2. destruct post as [|p1 post]; [reflexivity|].
    pose proof (all_space_head _ _ Hp) as Hs.
    now rewrite (start_not_third c1 c2 p1 Hs).
  - simpl. rewrite e0, e2, e4. now apply IHs0.
  - simpl. now rewrite e0, e2, e4.
Qed.

Lemma trimRight_app_space s post :
  all_space post -> trimRight (s ++ post) = trimRight s.
Proof.
  intro H. unfold trimRight. now rewrite srev_app, trimLeftRev_app_space.
Qed.

Lemma trimRight_decomp t : exists post, all_space post /\ t = trimRight t ++ post.
Proof.
  destruct (trimLeftRev_decomp (srev t)) as (w & Hw & E).
  exists w. split; [exact Hw|]. unfold trimRight.
  apply (f_equal srev) in E. rewrite srev_involutive, srev_app in E.
  now rewrite srev_involutive in E.
Qed.

Lemma trimRight_no_trailing t : ends_with_space (trimRight t) = false.
Proof.
  unfold ends_with_space, trimRight. rewrite srev_involutive.
  apply trimLeftRev_no_leading.
Qed.

Lemma starts_with_space_app a b :
  starts_with_space a = true -> starts_with_space (a ++ b) = true.
Proof.
  destruct a as [|c1 [|c2 [|c3 a]]]; simpl; try discriminate.
  - rewrite orb_false_r. intros ->. reflexivity.
  - rewrite orb_false_r. intro H. apply orb_true_iff in H.
    destruct H as [-> | ->]; [reflexivity | apply orb_true_r].
  - auto.
Qed.

(** White space around a string does not survive, and does not change what
    is left. *)
Lemma TrimSpace_surrounding pre s post :
  all_space pre -> all_space post -> TrimSpace (pre ++ s ++ post) = TrimSpace s.
Proof.
  intros Hpre Hpost. unfold TrimSpace. rewrite trimLeft_app_space by exact Hpre.
  destruct (string_dec (trimLeft s) "") as [E | NE].
  - rewrite E. rewrite trimLeft_all_space; [reflexivity|].
    apply all_space_app; [now apply trimLeft_empty | exact Hpost].
  - rewrite trimLeft_app_nonspace by assumption.
    now apply trimRight_app_space.
Qed.

(** What [TrimSpace] returns is the input without a white-space prefix and
    a white-space suffix, and has white space at neither end. *)
Lemma TrimSpace_decomp s :
  exists pre post,
    all_space pre /\ all_space post /\ s = pre ++ TrimSpace s ++ post
    /\ starts_with_space (TrimSpace s) = false
    /\ ends_with_space (TrimSpace s) = false.
Proof.
  destruct (trimLeft_decomp s) as (pre & Hpre & E1).
  destruct (trimRight_decomp (trimLeft s)) as (post & Hpost & E2).
  exists pre, post. unfold TrimSpace.
  repeat split; try assumption.
  - now rewrite <- E2.
  - destruct (starts_with_space (trimRight (trimLeft s))) eqn:E; [|reflexivity].
    apply (starts_with_space_app _ post) in E. rewrite <- E2 in E.
    now rewrite trimLeft_no_leading in E.
  - apply trimRight_no_trailing.
Qed.

(** ** The store primitives *)

Lemma with_faults_same (d : DB) : with_faults d (faults d) = d.
Proof. destruct d. reflexivity. Qed.

Lemma driver_ok_1 d : driver_ok 1 d -> hd None (faults d) = None.
Proof.
  unfold driver_ok. destruct (faults d) as [|f fs]; simpl; [reflexivity|].
  intro H. now inversion H.
Qed.

Lemma driver_ok_2 d :
  driver_ok 2 d -> hd None (faults d) = None /\ hd None (tl (faults d)) = None.
Proof.
  unfold driver_ok. destruct (faults d) as [|f [|g fs]]; simpl; intro H.
  - auto.
  - inversion H. auto.
  - inversion H as [|? ? ? H']. inversion H'. auto.
Qed.

Lemma driver_ok_nil n d : faults d = [] -> driver_ok n d.
Proof.
  unfold driver_ok. intros ->. destruct n; constructor.
Qed.

(** What one statement does: the driver's verdict comes first. *)
Lemma db_call_spec {A} (op : DBOp) (dflt : A) run (s : State) :
  db_call op dflt run s =
  let d := with_faults (db s) (tl (faults (db s))) in
  match hd None (faults (db s)) with
  | Some e =>
      (Some e, dflt,
       mkState d (cache s) (echoKeyList s) (trace s ++ [EvDB op (Some e)]))
  | None =>
      let '(err, a, d') := run d in
      (err, a, mkState d' (cache s) (echoKeyList s) (trace s ++ [EvDB op err]))
  end.
Proof.
  unfold db_call, bind, get_db, set_db, log, ret.
  destruct (faults (db s)) as [|[e|] fs]; simpl.
  - destruct (run _) as [[err a] d']. reflexivity.
  - reflexivity.
  - destruct (run _) as [[err a] d']. reflexivity.
Qed.

Lemma db_Commit_spec (snap : DB) (s : State) :
  db_Commit snap s =
  match hd None (faults (db s)) with
  | Some e =>
      (Some e,
       mkState (with_faults (with_tables (db s) (echos snap) (images snap)
                                         (next_id snap))
                            (tl (faults (db s))))
               (cache s) (echoKeyList s) (trace s ++ [EvDB OpCommit (Some e)]))
  | None =>
      (None,
       mkState (with_faults (db s) (tl (faults (db s))))
               (cache s) (echoKeyList s) (trace s ++ [EvDB OpCommit None]))
  end.
Proof.
  unfold db_Commit, bind, get_db, set_db, log, ret.
  destruct (faults (db s)) as [|[e|] fs]; reflexivity.
Qed.

Lemma new_events_app (s s' : State) (evs : list Event) :
  trace s' = (trace s ++ evs)%list -> new_events s s' = evs.
Proof.
  unfold new_events. intros ->.
  rewrite skipn_app, skipn_all, Nat.sub_diag. reflexivity.
Qed.

(** ** The page cache and the key list *)

Lemma purged_entries ks (c : CacheStore PageQueryResult) :
  entries (purged ks c)
  = filter (fun e => negb (existsb (fun k => (ekey e =? k)%string) ks)) (entries c).
Proof.
  unfold purged. revert c. induction ks as [|k ks IH]; intro c; simpl.
  - induction (entries c) as [|e l IHl]; simpl; [reflexivity | now rewrite <- IHl].
  - rewrite IH. unfold cache_Delete, remove_key. cbn [entries].
    induction (entries c) as [|e l IHl]; simpl; [reflexivity|].
    destruct (ekey e =? k)%string; simpl.
    + exact IHl.
    + destruct (existsb _ ks); simpl; [exact IHl | now rewrite IHl].
Qed.

Lemma purged_capacity ks (c : CacheStore PageQueryResult) :
  capacity (purged ks c) = capacity c.
Proof.
  unfold purged. revert c. induction ks as [|k ks IH]; intro c; simpl;
    [reflexivity | now rewrite IH].
Qed.

Lemma existsb_key_In k ks :
  In k ks -> existsb (fun k' => (k =? k')%string) ks = true.
Proof.
  intro H. apply existsb_exists. exists k. split; [exact H | apply String.eqb_refl].
Qed.

(** A purge deletes every listed key. *)
Lemma purged_not_resident ks c k :
  In k ks -> resident k (purged ks c) = false.
Proof.
  intro Hk. unfold resident. rewrite purged_entries.
  induction (entries c) as [|e l IH]; simpl; [reflexivity|].
  destruct (existsb _ ks) eqn:E; simpl; [exact IH|].
  destruct (ekey e =? k)%string eqn:Ek; simpl; [|exact IH].
  apply String.eqb_eq in Ek. subst k.
  rewrite existsb_key_In in E by exact Hk. discriminate.
Qed.

Lemma resident_In_entries k (c : CacheStore PageQueryResult) :
  resident k c = true <-> exists e, In e (entries c) /\ ekey e = k.
Proof.
  unfold resident. rewrite existsb_exists.
  split; intros (e & He & Hk); exists e; (split; [exact He|]);
    now apply String.eqb_eq.
Qed.

(** When the list covers the cache, a purge leaves the cache empty. *)
Lemma purged_tracked_empty ks c :
  (forall k, resident k c = true -> In k ks) -> entries (purged ks c) = [].
Proof.
  intro H. rewrite purged_entries.
  assert (Hall : forall e, In e (entries c) -> In (ekey e) ks).
  { intros e He. apply H. apply resident_In_entries. now exists e. }
  induction (entries c) as [|e l IH]; simpl; [reflexivity|].
  rewrite existsb_key_In by (apply Hall; now left). simpl.
  apply IH. intros e' He'. apply Hall. now right.
Qed.

Lemma ClearEchoPageCache_spec s :
  ClearEchoPageCache s
  = (tt, mkState (db s) (purged (echoKeyList s) (cache s)) []
                 (trace s ++ [EvPurge])).
Proof. reflexivity. Qed.

(** ** The paginated read *)

Lemma count_then_find_spec q limit offset s :
  count_then_find q limit offset s =
  match hd None (faults (db s)) with
  | Some e =>
      ([], 0,
       mkState (with_faults (db s) (tl (faults (db s)))) (cache s) (echoKeyList s)
               (trace s ++ [EvDB (OpCount q) (Some e)]))
  | None =>
      let d2 := with_faults (db s) (tl (tl (faults (db s)))) in
      match hd None (tl (faults (db s))) with
      | Some e =>
          ([], count_rows (db s) q,
           mkState d2 (cache s) (echoKeyList s)
                   (trace s ++ [EvDB (OpCount q) None;
                                EvDB (OpFind q limit offset) (Some e)]))
      | None =>
          (find_rows (db s) q limit offset, count_rows (db s) q,
           mkState d2 (cache s) (echoKeyList s)
                   (trace s ++ [EvDB (OpCount q) None;
                                EvDB (OpFind q limit offset) None]))
      end
  end.
Proof.
  unfold count_then_find, bind, db_Count, db_Find, ret.
  rewrite db_call_spec. cbv zeta.
  destruct (hd None (faults (db s))) as [e|]; [reflexivity|].
  rewrite db_call_spec. cbn [db cache echoKeyList trace faults with_faults].
  destruct (hd None (tl (faults (db s)))) as [e|]; cbv zeta;
    rewrite <- app_assoc; reflexivity.
Qed.

Lemma GetEchosByPage_hit page pageSize search showPrivate s e :
  lookup (GetEchoPageCacheKey page pageSize search showPrivate)
         (entries (cache s)) = Some e ->
  GetEchosByPage page pageSize search showPrivate s
  = (Items (evalue e), Total (evalue e),
     mkState (db s)
             (mkCache (capacity (cache s))
                      (remove_key (GetEchoPageCacheKey page pageSize search showPrivate)
                                  (entries (cache s)) ++ [e]))
             (echoKeyList s) (trace s)).
Proof.
  intro H. unfold GetEchosByPage, bind, repo_cache_Get, cache_Get.
  rewrite H. reflexivity.
Qed.

Lemma GetEchosByPage_miss page pageSize search showPrivate s :
  lookup (GetEchoPageCacheKey page pageSize search showPrivate)
         (entries (cache s)) = None ->
  GetEchosByPage page pageSize search showPrivate s
  = let key := GetEchoPageCacheKey page pageSize search showPrivate in
    let '(found, total, s1) :=
      count_then_find (page_query search showPrivate) pageSize
                      (int_mul (int_sub page 1) pageSize) s in
    (found, total,
     mkState (db s1)
             (snd (cache_Set key (mkPage found total) 1 (cache s)))
             (echoKeyList s ++ [key]) (trace s1)).
Proof.
  intro H. unfold GetEchosByPage, bind, repo_cache_Get, cache_Get.
  rewrite H. cbv zeta.
  rewrite !count_then_find_spec.
  unfold append_echoKeyList, repo_cache_Set, ret.
  cbn [db cache echoKeyList trace].
  destruct (hd None (faults (db s))) as [e|]; cbv zeta.
  - cbn [db cache echoKeyList trace].
    match goal with
    | |- context [cache_Set ?k ?v ?c ?st] => destruct (cache_Set k v c st)
    end; reflexivity.
  - destruct (hd None (tl (faults (db s)))) as [e|];
      cbn [db cache echoKeyList trace];
      match goal with
      | |- context [cache_Set ?k ?v ?c ?st] => destruct (cache_Set k v c st)
      end; reflexivity.
Qed.

(** The read changes neither capacity nor, beyond its own key, the set of
    resident keys. *)
Lemma remove_key_In {V} k (l : list (Entry V)) e :
  In e (remove_key k l) -> In e l.
Proof. unfold remove_key. intro H. apply filter_In in H. tauto. Qed.

Lemma evict_In {V} budget (l : list (Entry V)) e : In e (evict budget l) -> In e l.
Proof.
  destruct (evict_suffix budget l) as [gone Hg]. intro H.
  rewrite Hg. apply in_or_app. now right.
Qed.

Lemma cache_Set_resident {V} k (v : V) cost c e :
  In e (entries (snd (cache_Set k v cost c))) -> In e (entries c) \/ ekey e = k.
Proof.
  unfold cache_Set.
  destruct (cost <=? 0); [now left|].
  destruct (capacity c <? cost); [now left|].
  cbn [snd entries]. intro H. apply in_app_or in H. destruct H as [H | H].
  - left. eapply remove_key_In, evict_In, H.
  - right. destruct H as [<- | []]. reflexivity.
Qed.

Lemma GetEchosByPage_tracked page pageSize search showPrivate s :
  tracked s ->
  tracked (snd (GetEchosByPage page pageSize search showPrivate s)).
Proof.
  intro Ht.
  destruct (lookup (GetEchoPageCacheKey page pageSize search showPrivate)
                   (entries (cache s))) as [e|] eqn:L.
  - rewrite (GetEchosByPage_hit _ _ _ _ _ _ L). cbn [snd].
    intros k Hk. cbn [echoKeyList]. apply Ht.
    apply resident_In_entries in Hk. destruct Hk as (e' & He' & Hk).
    apply resident_In_entries. cbn [cache entries] in He'.
    apply in_app_or in He'. destruct He' as [He' | [<- | []]].
    + exists e'. split; [eapply remove_key_In, He' | exact Hk].
    + exists e. split; [|exact Hk].
      unfold lookup in L. apply find_some in L. tauto.
  - rewrite (GetEchosByPage_miss _ _ _ _ _ L). cbv zeta.
    destruct (count_then_find _ _ _ s) as [[found total] s1].
    cbn [snd]. intros k Hk. cbn [echoKeyList cache] in *.
    apply resident_In_entries in Hk. destruct Hk as (e' & He' & Hk).
    apply cache_Set_resident in He'. apply in_or_app.
    destruct He' as [He' | He'].
    + left. apply Ht. apply resident_In_entries. now exists e'.
    + right. left. congruence.
Qed.

(** C5.  Cache hit equivalence: when a read has left its entry in the
    cache, the same read run again on the state it left returns the same
    items and the same total, sends no statement to the store and leaves
    the tables, the key list and the trace as they were. *)
Theorem cache_hit_equivalence
        (s : State) (page pageSize : Z) (search : string) (showPrivate : bool)
        (r1 : list Echo * Z) (s1 : State) :
  GetEchosByPage page pageSize search showPrivate s = (r1, s1) ->
  resident (GetEchoPageCacheKey page pageSize search showPrivate) (cache s1) = true ->
  exists s2,
    GetEchosByPage page pageSize search showPrivate s1 = (r1, s2)
    /\ db s2 = db s1
    /\ trace s2 = trace s1
    /\ new_events s1 s2 = []
    /\ echoKeyList s2 = echoKeyList s1.
Proof.
  intros H1 Hres.
  set (key := GetEchoPageCacheKey page pageSize search showPrivate) in *.
  assert (Hhit : exists e, lookup key (entries (cache s1)) = Some e
                           /\ r1 = (Items (evalue e), Total (evalue e))).
  { destruct (lookup key (entries (cache s))) as [e|] eqn:L.
    - rewrite (GetEchosByPage_hit _ _ _ _ _ _ L) in H1.
      injection H1 as <- <-. exists e. split; [|reflexivity].
      cbn [cache entries]. fold key.
      rewrite lookup_app_none by apply lookup_remove_key.
      unfold lookup. simpl. apply lookup_some_key in L.
      apply String.eqb_eq in L. now rewrite L.
    - rewrite (GetEchosByPage_miss _ _ _ _ _ L) in H1. cbv zeta in H1.
      destruct (count_then_find _ _ _ s) as [[found total] s'].
      injection H1 as <- <-. fold key in Hres |- *.
      cbn [cache] in Hres |- *.
      exists (mkEntry key (mkPage found total) 1). split; [|reflexivity].
      unfold cache_Set in Hres |- *. cbn [Z.leb Z.compare] in Hres |- *.
      destruct (capacity (cache s) <? 1) eqn:E.
      + cbn [snd] in Hres. apply resident_lookup in Hres. now contradiction Hres.
      + cbn [snd entries].
        apply lookup_last, lookup_evict_none, lookup_remove_key. }
  destruct Hhit as (e & L1 & ->).
  rewrite (GetEchosByPage_hit _ _ _ _ _ _ L1).
  eexists. split; [reflexivity|]. cbn [db trace echoKeyList].
  repeat split; try reflexivity.
  apply new_events_app. cbn [trace]. now rewrite app_nil_r.
Qed.

(** A cache with room for one page keeps the page that was just read. *)
Lemma GetEchosByPage_populates page pageSize search showPrivate s :
  1 <= capacity (cache s) ->
  resident (GetEchoPageCacheKey page pageSize search showPrivate)
           (cache (snd (GetEchosByPage page pageSize search showPrivate s))) = true.
Proof.
  intro Hcap. apply resident_lookup.
  set (key := GetEchoPageCacheKey page pageSize search showPrivate).
  destruct (lookup key (entries (cache s))) as [e|] eqn:L.
  - rewrite (GetEchosByPage_hit _ _ _ _ _ _ L). cbn [snd cache entries]. fold key.
    rewrite lookup_app_none by apply lookup_remove_key.
    unfold lookup. simpl. apply lookup_some_key in L.
    apply String.eqb_eq in L. rewrite L. discriminate.
  - rewrite (GetEchosByPage_miss _ _ _ _ _ L). cbv zeta.
    destruct (count_then_find _ _ _ s) as [[found total] s'].
    cbn [snd cache]. fold key.
    destruct (cache_Set_accepts key (mkPage found total) 1 (cache s)) as [_ Hl];
      [lia|].
    rewrite Hl. discriminate.
Qed.

(** ** The writes *)

(** Run the statements of a method one after the other, splitting on the
    driver's verdict and on the tests of the method. *)
Ltac run_step :=
  first
    [ rewrite db_call_spec
    | rewrite db_Commit_spec
    | rewrite ClearEchoPageCache_spec
    | progress cbn [db cache echoKeyList trace faults with_faults with_tables
                    fst snd echos images next_id now like]
    | progress cbv zeta
    | match goal with
      | |- context [match hd None ?l with _ => _ end] =>
          let E := fresh "Ef" in destruct (hd None l) eqn:E
      | |- context [if ?b then _ else _] =>
          let E := fresh "Eb" in destruct b eqn:E
      | |- context [match Images ?e with _ => _ end] =>
          let E := fresh "Ei" in destruct (Images e) eqn:E
      end ].

Ltac run_method :=
  unfold db_Create, db_DeleteImages, db_DeleteEcho, db_Begin,
    db_Rollback, db_Updates, db_CreateImages, db_Exists, db_FavIncr;
  unfold bind, ret, get_db, set_db, log;
  repeat run_step.

Lemma CreateEcho_success echo s echo' s' :
  CreateEcho echo s = (None, echo', s') ->
  exists row,
    echos (db s') = (echos (db s) ++ [row])%list
    /\ Content row = TrimSpace (Content echo)
    /\ Private row = Private echo
    /\ Content echo' = TrimSpace (Content echo)
    /\ like (db s') = like (db s)
    /\ cache s' = purged (echoKeyList s) (cache s)
    /\ echoKeyList s' = []
    /\ new_events s s' = [EvDB OpCreate None; EvPurge].
Proof.
  unfold CreateEcho. run_method; intro H; try discriminate;
    injection H as <- <-; eexists; cbn [db cache echoKeyList trace echos like];
    (repeat split; try reflexivity);
    apply new_events_app; cbn [trace]; now rewrite <- app_assoc.
Qed.

Ltac finish_trace :=
  apply new_events_app; cbn [trace]; rewrite <- ?app_assoc; reflexivity.

(** A write that returns no error has purged the cache with the key list
    of the state it started from, and has emptied the list. *)
Lemma DeleteEchoById_success id s s' :
  DeleteEchoById id s = (None, s') ->
  cache s' = purged (echoKeyList s) (cache s) /\ echoKeyList s' = []
  /\ like (db s') = like (db s).
Proof.
  unfold DeleteEchoById. run_method; intro H; try discriminate;
    apply (f_equal snd) in H; cbn [snd] in H; subst s';
    cbn [db cache echoKeyList like]; auto.
Qed.

Lemma LikeEcho_success id s s' :
  LikeEcho id s = (None, s') ->
  cache s' = purged (echoKeyList s) (cache s) /\ echoKeyList s' = []
  /\ like (db s') = like (db s).
Proof.
  unfold LikeEcho. run_method; intro H; try discriminate;
    apply (f_equal snd) in H; cbn [snd] in H; subst s';
    cbn [db cache echoKeyList like]; auto.
Qed.

Lemma UpdateEcho_success echo s s' :
  UpdateEcho echo s = (None, s') ->
  cache s' = purged (echoKeyList s) (cache s) /\ echoKeyList s' = []
  /\ like (db s') = like (db s).
Proof.
  unfold UpdateEcho. run_method; intro H; try discriminate;
    apply (f_equal snd) in H; cbn [snd] in H; subst s';
    cbn [db cache echoKeyList like]; auto.
Qed.

Lemma run_mutation_success m s s' :
  run_mutation m s = (None, s') ->
  cache s' = purged (echoKeyList s) (cache s) /\ echoKeyList s' = []
  /\ like (db s') = like (db s).
Proof.
  destruct m as [echo | id | echo | id]; cbn [run_mutation].
  - unfold bind, ret. destruct (CreateEcho echo s) as [[err e'] s1] eqn:E.
    intro H. injection H as -> <-.
    apply CreateEcho_success in E. destruct E as (row & E). tauto.
  - apply DeleteEchoById_success.
  - apply UpdateEcho_success.
  - apply LikeEcho_success.
Qed.

(** [UpdateEcho] purges before it sends its first statement, whatever
    becomes of the transaction. *)
Lemma UpdateEcho_purges_first echo s :
  exists evs,
    new_events s (snd (UpdateEcho echo s)) = EvPurge :: evs
    /\ cache (snd (UpdateEcho echo s)) = purged (echoKeyList s) (cache s)
    /\ echoKeyList (snd (UpdateEcho echo s)) = [].
Proof.
  unfold UpdateEcho. run_method; cbn [snd cache echoKeyList];
    eexists; (split; [finish_trace | split; reflexivity]).
Qed.

(** The other three writes purge after the statement that changes the
    tables has come back without error, and not at all when they fail. *)
Lemma CreateEcho_purge_order echo s :
  let '(err, _, s') := CreateEcho echo s in
  purge_after_write (new_events s s') = true
  /\ (err <> None ->
      cache s' = cache s /\ echoKeyList s' = echoKeyList s
      /\ existsb is_purge (new_events s s') = false).
Proof.
  unfold CreateEcho. run_method;
    (split; [erewrite new_events_app by (cbn [trace]; rewrite <- ?app_assoc; reflexivity);
             reflexivity|]);
    intro H; try (now contradiction H); cbn [cache echoKeyList];
    (repeat split; try reflexivity);
    erewrite new_events_app by (cbn [trace]; rewrite <- ?app_assoc; reflexivity);
    reflexivity.
Qed.

Lemma DeleteEchoById_purge_order id s :
  let '(err, s') := DeleteEchoById id s in
  purge_after_write (new_events s s') = true
  /\ (err <> None ->
      cache s' = cache s /\ echoKeyList s' = echoKeyList s
      /\ existsb is_purge (new_events s s') = false).
Proof.
  unfold DeleteEchoById. run_method;
    (split; [erewrite new_events_app by (cbn [trace]; rewrite <- ?app_assoc; reflexivity);
             reflexivity|]);
    intro H; try (now contradiction H); cbn [cache echoKeyList];
    (repeat split; try reflexivity);
    erewrite new_events_app by (cbn [trace]; rewrite <- ?app_assoc; reflexivity);
    reflexivity.
Qed.

Lemma LikeEcho_purge_order id s :
  let '(err, s') := LikeEcho id s in
  purge_after_write (new_events s s') = true
  /\ (err <> None ->
      cache s' = cache s /\ echoKeyList s' = echoKeyList s
      /\ existsb is_purge (new_events s s') = false).
Proof.
  unfold LikeEcho. run_method;
    (split; [erewrite new_events_app by (cbn [trace]; rewrite <- ?app_assoc; reflexivity);
             reflexivity|]);
    intro H; try (now contradiction H); cbn [cache echoKeyList];
    (repeat split; try reflexivity);
    erewrite new_events_app by (cbn [trace]; rewrite <- ?app_assoc; reflexivity);
    reflexivity.
Qed.

(** ** Reads after writes *)

Lemma wrap_int_small z : MinInt <= z <= MaxInt -> wrap_int z = z.
Proof.
  unfold wrap_int, MinInt, MaxInt, int_bits.
  change (2 ^ (64 - 1)) with 9223372036854775808.
  change (2 ^ 64) with 18446744073709551616.
  intro H. rewrite Z.mod_small by lia. lia.
Qed.

Lemma offset_exact page pageSize :
  1 <= page -> 1 <= pageSize -> (page - 1) * pageSize <= MaxInt ->
  int_mul (int_sub page 1) pageSize = (page - 1) * pageSize.
Proof.
  intros Hp Hs Hm. unfold int_mul, int_sub.
  assert (0 <= page - 1 <= (page - 1) * pageSize) by nia.
  assert (MinInt <= 0) by (unfold MinInt, int_bits; simpl; lia).
  rewrite (wrap_int_small (page - 1)) by lia.
  apply wrap_int_small. lia.
Qed.

(** The clauses the method builds select the rows the interface speaks
    of. *)
Lemma matches_page_query d search showPrivate e :
  matches d (page_query search showPrivate) e
  = visible_match d search showPrivate e.
Proof.
  unfold matches, page_query, visible_match.
  destruct (search =? "")%string, showPrivate; simpl;
    rewrite ?andb_true_r; try reflexivity;
    destruct (Private e); simpl; rewrite ?andb_true_r, ?andb_false_r; reflexivity.
Qed.

Lemma matching_visible d search showPrivate :
  matching d (page_query search showPrivate)
  = filter (visible_match d search showPrivate) (echos d).
Proof.
  unfold matching. apply filter_ext. intro e. apply matches_page_query.
Qed.

Lemma visible_match_fields d d' search showPrivate e e' :
  like d' = like d -> Content e' = Content e -> Private e' = Private e ->
  visible_match d' search showPrivate e' = visible_match d search showPrivate e.
Proof. unfold visible_match. intros -> -> ->. reflexivity. Qed.

(** A read that misses and is answered by the store. *)
Lemma GetEchosByPage_miss_ok page pageSize search showPrivate s :
  lookup (GetEchoPageCacheKey page pageSize search showPrivate)
         (entries (cache s)) = None ->
  driver_ok 2 (db s) ->
  let q := page_query search showPrivate in
  let offset := int_mul (int_sub page 1) pageSize in
  let '(items, total, s') := GetEchosByPage page pageSize search showPrivate s in
  items = find_rows (db s) q pageSize offset
  /\ total = count_rows (db s) q
  /\ new_events s s' = [EvDB (OpCount q) None; EvDB (OpFind q pageSize offset) None].
Proof.
  intros L Hok. cbv zeta.
  rewrite (GetEchosByPage_miss _ _ _ _ _ L). cbv zeta.
  rewrite count_then_find_spec.
  destruct (driver_ok_2 _ Hok) as [E1 E2]. rewrite E1, E2. cbv zeta.
  repeat split. now apply new_events_app.
Qed.

(** C1.  Invalidation: after a read of a page, a write (create, delete,
    update or like) that returns no error has purged every key that was on
    the key list and left the cache empty, so the same read run next misses
    and, answered by the store, returns the rows and the total of the
    tables as the write left them; after a create of a row that the query
    selects, that total is the earlier count plus one. *)
Theorem invalidation_after_write
        (s : State) (page pageSize : Z) (search : string) (showPrivate : bool)
        (m : Mutation) (r1 : list Echo * Z) (s1 s2 : State) :
  tracked s ->
  GetEchosByPage page pageSize search showPrivate s = (r1, s1) ->
  run_mutation m s1 = (None, s2) ->
  driver_ok 2 (db s2) ->
  let q := page_query search showPrivate in
  let offset := int_mul (int_sub page 1) pageSize in
  (forall k, In k (echoKeyList s1) -> resident k (cache s2) = false)
  /\ entries (cache s2) = []
  /\ echoKeyList s2 = []
  /\ fst (GetEchosByPage page pageSize search showPrivate s2)
     = (find_rows (db s2) q pageSize offset, count_rows (db s2) q)
  /\ (forall echo,
         m = MCreate echo ->
         visible_match (db s1) search showPrivate
                       (with_Content echo (TrimSpace (Content echo))) = true ->
         snd (fst (GetEchosByPage page pageSize search showPrivate s2))
         = count_rows (db s1) q + 1).
Proof.
  intros Ht H1 Hm Hok q offset.
  assert (Ht1 : tracked s1).
  { pose proof (GetEchosByPage_tracked page pageSize search showPrivate s Ht) as T.
    now rewrite H1 in T. }
  destruct (run_mutation_success _ _ _ Hm) as (Hc & Hl & Hk).
  assert (Hempty : entries (cache s2) = []).
  { rewrite Hc. apply purged_tracked_empty. exact Ht1. }
  assert (Hread : fst (GetEchosByPage page pageSize search showPrivate s2)
                  = (find_rows (db s2) q pageSize offset, count_rows (db s2) q)).
  { pose proof (GetEchosByPage_miss_ok page pageSize search showPrivate s2) as R.
    rewrite Hempty in R. specialize (R eq_refl Hok). cbv zeta in R.
    destruct (GetEchosByPage page pageSize search showPrivate s2)
      as [[items total] s3].
    destruct R as (-> & -> & _). reflexivity. }
  split; [|split; [exact Hempty | split; [exact Hl | split; [exact Hread|]]]].
  - intros k Hin. rewrite Hc. now apply purged_not_resident.
  - intros echo -> Hvis. rewrite Hread. cbn [snd].
    cbn [run_mutation] in Hm. unfold bind, ret in Hm.
    destruct (CreateEcho echo s1) as [[err e'] s1'] eqn:E.
    injection Hm as -> ->.
    apply CreateEcho_success in E.
    destruct E as (row & Hrows & Hcont & Hpriv & _ & Hlike & _).
    unfold count_rows, q. rewrite !matching_visible, Hrows, filter_app.
    rewrite length_app, Nat2Z.inj_add. cbn [filter].
    rewrite (visible_match_fields (db s1) (db s2) search showPrivate
               (with_Content echo (TrimSpace (Content echo))) row)
      by (try assumption; reflexivity).
    rewrite Hvis. cbn [List.length].
    f_equal. f_equal. f_equal. apply filter_ext. intro e.
    apply visible_match_fields; auto.
Qed.

(** The invariant [tracked] holds of a fresh repository and is kept by
    every method. *)
Lemma init_state_tracked cap lk : tracked (init_state cap lk).
Proof. intros k H. discriminate. Qed.

Lemma run_mutation_cache m s :
  let s' := snd (run_mutation m s) in
  (cache s' = cache s /\ echoKeyList s' = echoKeyList s)
  \/ (cache s' = purged (echoKeyList s) (cache s) /\ echoKeyList s' = []).
Proof.
  destruct m as [echo | id | echo | id]; cbn [run_mutation].
  - unfold CreateEcho. run_method; cbn [snd cache echoKeyList]; auto.
  - unfold DeleteEchoById. run_method; cbn [snd cache echoKeyList]; auto.
  - unfold UpdateEcho. run_method; cbn [snd cache echoKeyList]; auto.
  - unfold LikeEcho. run_method; cbn [snd cache echoKeyList]; auto.
Qed.

Lemma run_mutation_tracked m s : tracked s -> tracked (snd (run_mutation m s)).
Proof.
  intro Ht. destruct (run_mutation_cache m s) as [[Hc Hl] | [Hc Hl]];
    intros k Hk.
  - rewrite Hl. apply Ht. now rewrite <- Hc.
  - rewrite Hc in Hk. apply resident_In_entries in Hk.
    destruct Hk as (e & He & _).
    rewrite (purged_tracked_empty _ _ Ht) in He. contradiction.
Qed.

(** C6.  Window of a read that misses: for page and page size at least one
    whose offset [(page - 1) * pageSize] fits an int, a read that misses
    the cache and is answered by the store sends a count and a window
    statement with limit [pageSize] and offset [(page - 1) * pageSize]; the
    total it returns is the number of all rows that match the search term
    and the visibility filter, whatever the window, and the items are that
    window of the matching rows, newest first. *)
Theorem miss_reads_window
        (s : State) (page pageSize : Z) (search : string) (showPrivate : bool) :
  1 <= page -> 1 <= pageSize -> (page - 1) * pageSize <= MaxInt ->
  lookup (GetEchoPageCacheKey page pageSize search showPrivate)
         (entries (cache s)) = None ->
  driver_ok 2 (db s) ->
  let q := page_query search showPrivate in
  let offset := (page - 1) * pageSize in
  let rows := filter (visible_match (db s) search showPrivate) (echos (db s)) in
  let '(items, total, s') := GetEchosByPage page pageSize search showPrivate s in
  new_events s s' = [EvDB (OpCount q) None; EvDB (OpFind q pageSize offset) None]
  /\ total = Z.of_nat (List.length rows)
  /\ items = map (preload (db s))
                 (firstn (Z.to_nat pageSize)
                         (skipn (Z.to_nat offset) (order_desc rows))).
Proof.
  intros Hp Hs Hm L Hok. cbv zeta.
  pose proof (GetEchosByPage_miss_ok page pageSize search showPrivate s L Hok) as R.
  cbv zeta in R. rewrite (offset_exact page pageSize Hp Hs Hm) in R.
  destruct (GetEchosByPage page pageSize search showPrivate s)
    as [[items total] s'].
  destruct R as (-> & -> & Hev).
  split; [exact Hev|]. split.
  - unfold count_rows. now rewrite matching_visible.
  - unfold find_rows, window. rewrite matching_visible.
    assert (0 <= (page - 1) * pageSize) by nia.
    destruct (0 <? (page - 1) * pageSize) eqn:E0.
    + destruct (0 <=? pageSize) eqn:E1; [reflexivity|].
      apply Z.leb_gt in E1. lia.
    + apply Z.ltb_ge in E0. replace ((page - 1) * pageSize) with 0 by lia.
      destruct (0 <=? pageSize) eqn:E1; [reflexivity|].
      apply Z.leb_gt in E1. lia.
Qed.

(** C8.  No validation of the descriptor: for every page and page size,
    also zero and below, a read that misses the cache is not rejected; it
    sends the count statement to the store, puts its key on the key list
    and hands its result to the cache with cost one; answered by the store,
    it has sent the window statement with limit [pageSize] and offset
    [(page - 1) * pageSize] in int arithmetic and returns what the store
    gave. *)
Theorem read_is_never_rejected
        (s : State) (page pageSize : Z) (search : string) (showPrivate : bool) :
  lookup (GetEchoPageCacheKey page pageSize search showPrivate)
         (entries (cache s)) = None ->
  let key := GetEchoPageCacheKey page pageSize search showPrivate in
  let q := page_query search showPrivate in
  let offset := int_mul (int_sub page 1) pageSize in
  let '(items, total, s') := GetEchosByPage page pageSize search showPrivate s in
  (exists verdict rest, new_events s s' = EvDB (OpCount q) verdict :: rest)
  /\ echoKeyList s' = (echoKeyList s ++ [key])%list
  /\ cache s' = snd (cache_Set key (mkPage items total) 1 (cache s))
  /\ (driver_ok 2 (db s) ->
      new_events s s' = [EvDB (OpCount q) None; EvDB (OpFind q pageSize offset) None]
      /\ items = find_rows (db s) q pageSize offset
      /\ total = count_rows (db s) q).
Proof.
  intro L. cbv zeta.
  rewrite (GetEchosByPage_miss _ _ _ _ _ L). cbv zeta.
  rewrite count_then_find_spec.
  destruct (hd None (faults (db s))) as [e|] eqn:E1;
    [|destruct (hd None (tl (faults (db s)))) as [e|] eqn:E2];
    cbv zeta; cbn [echoKeyList cache trace];
    (split; [do 2 eexists; apply new_events_app; cbn [trace]; reflexivity|]);
    (split; [reflexivity|]); (split; [reflexivity|]);
    intro Hok; destruct (driver_ok_2 _ Hok) as [F1 F2]; try congruence.
  repeat split. now apply new_events_app.
Qed.

(** ** The key list *)

Lemma GetEchosByPage_keys page pageSize search showPrivate s :
  let key := GetEchoPageCacheKey page pageSize search showPrivate in
  echoKeyList (snd (GetEchosByPage page pageSize search showPrivate s))
  = if resident key (cache s) then echoKeyList s
    else (echoKeyList s ++ [key])%list.
Proof.
  cbv zeta.
  destruct (lookup (GetEchoPageCacheKey page pageSize search showPrivate)
                   (entries (cache s))) as [e|] eqn:L.
  - rewrite (GetEchosByPage_hit _ _ _ _ _ _ L). cbn [snd echoKeyList].
    destruct (resident _ (cache s)) eqn:R; [reflexivity|].
    assert (resident (GetEchoPageCacheKey page pageSize search showPrivate)
                     (cache s) = true) as R'
        by (apply resident_lookup; rewrite L; discriminate).
    congruence.
  - rewrite (GetEchosByPage_miss _ _ _ _ _ L). cbv zeta.
    destruct (count_then_find _ _ _ s) as [[found total] s1].
    cbn [snd echoKeyList].
    destruct (resident _ (cache s)) eqn:R; [|reflexivity].
    apply resident_lookup in R. now contradiction R.
Qed.

(** C2.  The key list is a list that is appended to: a read that finds its
    entry in the cache leaves the list as it is; a read that misses puts
    its key at the end, also when the key is on the list already; when the
    cache has room for a page, the same read run again leaves the list as
    the first run left it; a purge empties the list. *)
Theorem echoKeyList_is_appended
        (s : State) (page pageSize : Z) (search : string) (showPrivate : bool) :
  let key := GetEchoPageCacheKey page pageSize search showPrivate in
  let s1 := snd (GetEchosByPage page pageSize search showPrivate s) in
  (resident key (cache s) = true -> echoKeyList s1 = echoKeyList s)
  /\ (resident key (cache s) = false ->
      echoKeyList s1 = (echoKeyList s ++ [key])%list)
  /\ (1 <= capacity (cache s) ->
      echoKeyList (snd (GetEchosByPage page pageSize search showPrivate s1))
      = echoKeyList s1)
  /\ echoKeyList (snd (ClearEchoPageCache s1)) = [].
Proof.
  cbv zeta. split; [|split; [|split]].
  - intro R. pose proof (GetEchosByPage_keys page pageSize search showPrivate s) as K.
    cbv zeta in K. now rewrite R in K.
  - intro R. pose proof (GetEchosByPage_keys page pageSize search showPrivate s) as K.
    cbv zeta in K. now rewrite R in K.
  - intro Hcap.
    pose proof (GetEchosByPage_keys page pageSize search showPrivate
                  (snd (GetEchosByPage page pageSize search showPrivate s))) as K.
    cbv zeta in K.
    now rewrite (GetEchosByPage_populates page pageSize search showPrivate s Hcap) in K.
  - reflexivity.
Qed.

(** ** Order of purge and write *)

(** C3.  [UpdateEcho] on a repository that holds one cached page: when the
    driver refuses to begin the transaction, the method returns that error,
    the tables are as they were, and yet the cached page is gone, the purge
    being the first event; when the transaction goes through, the purge
    still comes before every statement of it. *)
Theorem UpdateEcho_purges_before_write :
  let s := with_driver (snd demo_read) [Some (ErrDriver 1)] in
  let '(err, s') := UpdateEcho demo_update s in
  let '(err2, s2) := UpdateEcho demo_update (snd demo_read) in
  err = Some (ErrDriver 1)
  /\ List.length (entries (cache s)) = 1%nat
  /\ entries (cache s') = []
  /\ echos (db s') = echos (db s)
  /\ new_events s s' = [EvPurge; EvDB OpBegin (Some (ErrDriver 1))]
  /\ purge_after_write (new_events s s') = false
  /\ err2 = None
  /\ new_events (snd demo_read) s2
     = [EvPurge; EvDB OpBegin None; EvDB (OpDeleteImages 1) None;
        EvDB (OpUpdates 1) None; EvDB OpCommit None]
  /\ purge_after_write (new_events (snd demo_read) s2) = false.
Proof. vm_compute. repeat split. Qed.

(** ** Content of a created echo *)

(** C9.  [CreateEcho] stores the trimmed content: when the insert succeeds,
    the row added to the table (and the caller's echo) has the content of
    the input without a leading run and a trailing run of white space, with
    white space at neither end; an input that differs from it by white
    space around the content only gives a row with the same content. *)
Theorem CreateEcho_trims_content
        (echo : Echo) (s : State) (echo' : Echo) (s' : State) :
  CreateEcho echo s = (None, echo', s') ->
  exists row pre post,
    echos (db s') = (echos (db s) ++ [row])%list
    /\ Content row = TrimSpace (Content echo)
    /\ Content echo' = Content row
    /\ all_space pre /\ all_space post
    /\ Content echo = pre ++ Content row ++ post
    /\ starts_with_space (Content row) = false
    /\ ends_with_space (Content row) = false
    /\ (forall other ws1 ws2 other' t',
           all_space ws1 -> all_space ws2 ->
           Content other = ws1 ++ Content echo ++ ws2 ->
           CreateEcho other s = (None, other', t') ->
           exists row',
             echos (db t') = (echos (db s) ++ [row'])%list
             /\ Content row' = Content row).
Proof.
  intro H. apply CreateEcho_success in H.
  destruct H as (row & Hrows & Hcont & _ & Hcont' & _).
  destruct (TrimSpace_decomp (Content echo))
    as (pre & post & Hpre & Hpost & Hsplit & Hstart & Hend).
  rewrite <- Hcont in Hsplit, Hstart, Hend.
  exists row, pre, post.
  split; [exact Hrows|]. split; [exact Hcont|].
  split; [now rewrite Hcont', Hcont|].
  split; [exact Hpre|]. split; [exact Hpost|]. split; [exact Hsplit|].
  split; [exact Hstart|]. split; [exact Hend|].
  intros other ws1 ws2 other' t' H1 H2 Hc Ho.
  apply CreateEcho_success in Ho.
  destruct Ho as (row' & Hrows' & Hc' & _).
  exists row'. split; [exact Hrows'|].
  rewrite Hc', Hc, Hcont. now apply TrimSpace_surrounding.
Qed.

(** ** Lookup by id *)

(** C10.  [GetEchosById]: for an id no row carries, when the driver reports
    no failure, the result is a nil echo and a nil error; a failure of the
    driver other than record-not-found comes back as the error, with a nil
    echo. *)
Theorem GetEchosById_not_found (s : State) (id : Z) :
  (find (fun r => ID r =? id) (echos (db s)) = None ->
   driver_ok 1 (db s) ->
   fst (GetEchosById id s) = (None, None))
  /\ (forall e,
         hd None (faults (db s)) = Some e -> e <> ErrRecordNotFound ->
         fst (GetEchosById id s) = (None, Some e)).
Proof.
  split.
  - intros Hfind Hok. apply driver_ok_1 in Hok.
    unfold GetEchosById, bind, db_First. rewrite db_call_spec. cbv zeta.
    rewrite Hok. cbn [echos with_faults]. rewrite Hfind. reflexivity.
  - intros e He Hne.
    unfold GetEchosById, bind, db_First. rewrite db_call_spec. cbv zeta.
    rewrite He. destruct e; try reflexivity. now contradiction Hne.
Qed.

(* ===================================================================== *)
(** * Concrete runs *)

(** The scenario of the interface description on the small repository: the
    first page of the public echos is read (one row), a public echo is
    created, and the same read shows one row more. *)
Lemma invalidation_after_write_witness :
  let s2 := snd (run_mutation (MCreate demo_echo) (snd demo_read)) in
  snd (fst demo_read) = 1
  /\ entries (cache s2) = []
  /\ snd (fst (GetEchosByPage 1 10 "" false s2)) = 2.
Proof.
  cbv zeta.
  destruct (invalidation_after_write
              demo_filled 1 10 "" false (MCreate demo_echo)
              (fst demo_read) (snd demo_read)
              (snd (run_mutation (MCreate demo_echo) (snd demo_read))))
    as (_ & Hempty & _ & _ & Hcount).
  - apply run_mutation_tracked with (m := MCreate demo_private).
    apply run_mutation_tracked with (m := MCreate demo_echo).
    apply init_state_tracked.
  - reflexivity.
  - reflexivity.
  - apply driver_ok_nil. reflexivity.
  - split; [reflexivity|]. split; [exact Hempty|].
    rewrite (Hcount demo_echo eq_refl eq_refl). reflexivity.
Defined.

(** Reading page 1, page 2 and page 1 again from a cache with room for one
    page lists the key of page 1 twice. *)
Lemma echoKeyList_duplicates :
  let s := run_reads [(1, 10, "", false); (2, 10, "", false); (1, 10, "", false)]
                     (init_state 1 like_contains) in
  echoKeyList s
  = ["echo_page:1:10::false"; "echo_page:2:10::false"; "echo_page:1:10::false"]
  /\ ~ NoDup (echoKeyList s).
Proof.
  cbv zeta. split; [reflexivity|].
  intro H. vm_compute in H. inversion H as [|k l Hnotin _]; subst.
  apply Hnotin. right. left. reflexivity.
Qed.

Lemma echoKeyList_is_appended_witness :
  let s := run_reads [(1, 10, "", false); (2, 10, "", false)]
                     (init_state 1 like_contains) in
  resident "echo_page:1:10::false" (cache s) = false
  /\ In "echo_page:1:10::false" (echoKeyList s)
  /\ echoKeyList (snd (GetEchosByPage 1 10 "" false s))
     = (echoKeyList s ++ ["echo_page:1:10::false"])%list.
Proof.
  cbv zeta. split; [reflexivity|]. split; [left; reflexivity|].
  apply (echoKeyList_is_appended
           (run_reads [(1, 10, "", false); (2, 10, "", false)]
                      (init_state 1 like_contains))
           1 10 "" false).
  reflexivity.
Defined.

(** The second identical read of the small repository. *)
Lemma cache_hit_equivalence_witness :
  exists s2,
    GetEchosByPage 1 10 "" false (snd demo_read) = (fst demo_read, s2)
    /\ db s2 = db (snd demo_read)
    /\ trace s2 = trace (snd demo_read)
    /\ new_events (snd demo_read) s2 = []
    /\ echoKeyList s2 = echoKeyList (snd demo_read).
Proof.
  apply (cache_hit_equivalence demo_filled 1 10 "" false); reflexivity.
Defined.

(** Page 2^62 + 1 with page size 4 is a valid descriptor of ints, and the
    offset sent to the store is 0, not 2^64. *)
Lemma offset_wraps_around :
  let page := 4611686018427387905 in
  let q := page_query "" false in
  (1 <= page <= MaxInt)
  /\ (page - 1) * 4 = 2 ^ 64
  /\ lookup (GetEchoPageCacheKey page 4 "" false) (entries (cache demo_filled)) = None
  /\ new_events demo_filled (snd (GetEchosByPage page 4 "" false demo_filled))
     = [EvDB (OpCount q) None; EvDB (OpFind q 4 0) None]
  /\ ~ (new_events demo_filled (snd (GetEchosByPage page 4 "" false demo_filled))
        = [EvDB (OpCount q) None; EvDB (OpFind q 4 ((page - 1) * 4)) None]).
Proof.
  cbv zeta. split; [vm_compute; split; discriminate|].
  split; [reflexivity|]. split; [reflexivity|]. split; [reflexivity|].
  intro H. vm_compute in H. discriminate H.
Qed.

Lemma miss_reads_window_witness :
  let '(items, total, s') := GetEchosByPage 1 10 "" false demo_filled in
  total = 1
  /\ map Content items = ["hello world"]
  /\ new_events demo_filled s'
     = [EvDB (OpCount [CondPrivateEq false]) None;
        EvDB (OpFind [CondPrivateEq false] 10 0) None].
Proof.
  pose proof (miss_reads_window demo_filled 1 10 "" false) as H.
  cbv zeta in H.
  destruct (GetEchosByPage 1 10 "" false demo_filled) as [[items total] s'].
  destruct H as (Hev & -> & ->).
  - lia.
  - lia.
  - vm_compute. discriminate.
  - reflexivity.
  - apply driver_ok_nil. reflexivity.
  - split; [reflexivity|]. split; [reflexivity|]. exact Hev.
Defined.

(** Page 0 is read like any other page: the store is queried with offset
    -10 and the result is cached. *)
Lemma invalid_descriptor_is_served :
  let s' := snd (GetEchosByPage 0 10 "" false demo_filled) in
  new_events demo_filled s'
  = [EvDB (OpCount [CondPrivateEq false]) None;
     EvDB (OpFind [CondPrivateEq false] 10 (-10)) None]
  /\ resident "echo_page:0:10::false" (cache demo_filled) = false
  /\ resident "echo_page:0:10::false" (cache s') = true
  /\ cache s' <> cache demo_filled
  /\ trace s' <> trace demo_filled.
Proof.
  cbv zeta. split; [reflexivity|]. split; [reflexivity|]. split; [reflexivity|].
  split; intro H; vm_compute in H; discriminate H.
Qed.

Lemma read_is_never_rejected_witness :
  let '(items, total, s') := GetEchosByPage 0 0 "" false demo_filled in
  echoKeyList s' = ["echo_page:0:0::false"]
  /\ total = 1
  /\ new_events demo_filled s'
     = [EvDB (OpCount [CondPrivateEq false]) None;
        EvDB (OpFind [CondPrivateEq false] 0 0) None].
Proof.
  pose proof (read_is_never_rejected demo_filled 0 0 "" false eq_refl) as H.
  cbv zeta in H.
  destruct (GetEchosByPage 0 0 "" false demo_filled) as [[items total] s'].
  destruct H as (_ & Hk & _ & Hok).
  destruct (Hok (driver_ok_nil 2 (db demo_filled) eq_refl)) as (Hev & _ & Ht).
  split; [exact Hk|]. split; [exact Ht|]. exact Hev.
Defined.

Lemma CreateEcho_trims_content_witness :
  exists row pre post,
    echos (db (snd (CreateEcho demo_echo demo_state))) = [row]
    /\ Content row = "hello world"
    /\ Content demo_echo = pre ++ Content row ++ post.
Proof.
  destruct (CreateEcho_trims_content
              demo_echo demo_state
              (snd (fst (CreateEcho demo_echo demo_state)))
              (snd (CreateEcho demo_echo demo_state)) eq_refl)
    as (row & pre & post & Hrows & Hc & _ & _ & _ & Hsplit & _).
  exists row, pre, post. split; [exact Hrows|]. split; [exact Hc|]. exact Hsplit.
Defined.

Lemma GetEchosById_not_found_witness :
  fst (GetEchosById 7 demo_filled) = (None, None)
  /\ fst (GetEchosById 1 (with_driver demo_filled [Some (ErrDriver 5)]))
     = (None, Some (ErrDriver 5)).
Proof.
  split.
  - apply (GetEchosById_not_found demo_filled 7);
      [reflexivity | apply driver_ok_nil; reflexivity].
  - apply (GetEchosById_not_found (with_driver demo_filled [Some (ErrDriver 5)]) 1);
      [reflexivity | discriminate].
Defined.

(* ===================================================================== *)
(** * Further properties of the repository methods *)

(** As [run_method], with what is known of the driver's verdicts used
    before any case split. *)
Ltac run_known_step :=
  first
    [ match goal with
      | H : hd None ?l = _ |- context [hd None ?l] => rewrite H
      | H : faults ?d = _ |- context [faults ?d] => rewrite H
      end
    | progress cbn [hd tl]
    | run_step ].

Ltac run_known :=
  unfold db_Create, db_DeleteImages, db_DeleteEcho, db_Begin,
    db_Rollback, db_Updates, db_CreateImages, db_Exists, db_FavIncr, db_First;
  unfold bind, ret, get_db, set_db, log;
  repeat run_known_step.

(** ** Lists of rows *)

Lemma existsb_false_filter {A} (f : A -> bool) l :
  existsb f l = false -> filter f l = [].
Proof.
  induction l as [|x l IH]; simpl; [reflexivity|].
  destruct (f x); simpl; [discriminate | exact IH].
Qed.

Lemma existsb_false_filter_negb {A} (f : A -> bool) l :
  existsb f l = false -> filter (fun x => negb (f x)) l = l.
Proof.
  induction l as [|x l IH]; simpl; [reflexivity|].
  destruct (f x); simpl; [discriminate|]. intro H. now rewrite IH.
Qed.

Lemma existsb_false_find {A} (f : A -> bool) l :
  existsb f l = false -> find f l = None.
Proof.
  induction l as [|x l IH]; simpl; [reflexivity|].
  destruct (f x); simpl; [discriminate | exact IH].
Qed.

Lemma find_none_existsb {A} (f : A -> bool) l :
  find f l = None -> existsb f l = false.
Proof.
  induction l as [|x l IH]; simpl; [reflexivity|].
  destruct (f x); simpl; [discriminate | exact IH].
Qed.

Lemma find_filter_negb {A} (f : A -> bool) l :
  find f (filter (fun x => negb (f x)) l) = None.
Proof.
  induction l as [|x l IH]; simpl; [reflexivity|].
  destruct (f x) eqn:E; simpl; [exact IH|]. now rewrite E.
Qed.

Lemma filter_filter_negb {A} (f : A -> bool) l :
  filter f (filter (fun x => negb (f x)) l) = [].
Proof.
  induction l as [|x l IH]; simpl; [reflexivity|].
  destruct (f x) eqn:E; simpl; [exact IH|]. now rewrite E.
Qed.

Lemma find_app_none {A} (f : A -> bool) l x :
  find f l = None -> f x = true -> find f (l ++ [x]) = Some x.
Proof.
  intros Hl Hx. induction l as [|y l IH]; simpl in *.
  - now rewrite Hx.
  - destruct (f y); [discriminate | auto].
Qed.

Lemma filter_length_zero {A} (f : A -> bool) l :
  (Z.of_nat (List.length (filter f l)) =? 0) = true -> existsb f l = false.
Proof.
  intro H. apply Z.eqb_eq in H.
  induction l as [|x l IH]; simpl in *; [reflexivity|].
  destruct (f x); simpl in *; [lia | auto].
Qed.

Lemma filter_length_nonzero {A} (f : A -> bool) l :
  (Z.of_nat (List.length (filter f l)) =? 0) = false -> existsb f l = true.
Proof.
  intro H. destruct (existsb f l) eqn:E; [reflexivity|].
  rewrite (existsb_false_filter f l E) in H. discriminate.
Qed.

(** ** [DeleteEchoById] *)

(** X1.  Deleting an id that no row carries: when the driver reports no
    failure, [DeleteEchoById] returns record-not-found, purges nothing and
    leaves the echo table, the cache and the key list as they were. *)
Theorem DeleteEchoById_missing_row (s : State) (id : Z) :
  existsb (fun r => ID r =? id) (echos (db s)) = false ->
  driver_ok 2 (db s) ->
  let '(err, s') := DeleteEchoById id s in
  err = Some ErrRecordNotFound
  /\ echos (db s') = echos (db s)
  /\ cache s' = cache s
  /\ echoKeyList s' = echoKeyList s
  /\ existsb is_purge (new_events s s') = false.
Proof.
  intros Hno Hok. destruct (driver_ok_2 _ Hok) as [F1 F2].
  unfold DeleteEchoById. run_known.
  - cbn [db echos cache echoKeyList with_tables].
    rewrite (existsb_false_filter_negb _ _ Hno).
    repeat split.
    erewrite new_events_app by (cbn [trace]; rewrite <- ?app_assoc; reflexivity).
    reflexivity.
  - apply filter_length_nonzero in Eb. congruence.
Qed.

(** X2.  Delete, then look up: after [DeleteEchoById] has returned no
    error, the echo table is the old one without the rows of that id, and
    [GetEchosById] of the id, when the driver reports no failure, returns a
    nil echo and a nil error.  The images of the id are gone when the
    statement that deletes them went through; when it failed, the failure
    was dropped and they are all still there. *)
Theorem DeleteEchoById_then_lookup (s s' : State) (id : Z) :
  DeleteEchoById id s = (None, s') ->
  driver_ok 1 (db s') ->
  echos (db s') = filter (fun r => negb (ID r =? id)) (echos (db s))
  /\ existsb (fun r => ID r =? id) (echos (db s)) = true
  /\ fst (GetEchosById id s') = (None, None)
  /\ (hd None (faults (db s)) = None ->
      images (db s') = filter (fun i => negb (MessageID i =? id)) (images (db s)))
  /\ (forall e, hd None (faults (db s)) = Some e ->
                images (db s') = images (db s)).
Proof.
  intros H Hok. apply driver_ok_1 in Hok. revert H Hok.
  unfold DeleteEchoById. run_method; intro H; try discriminate;
    apply (f_equal snd) in H; cbn [snd] in H; subst s';
    cbn [db echos images faults with_tables with_faults]; intro Hok;
    (split; [reflexivity|]);
    (split; [now apply filter_length_nonzero|]);
    (split; [unfold GetEchosById; run_known;
             rewrite find_filter_negb; reflexivity|]);
    (split; [intro; try reflexivity; congruence
            | intros e' He'; try reflexivity; congruence]).
Qed.

(** X3.  The delete is not atomic: when the statement that deletes the
    images goes through and the statement that deletes the echo fails,
    [DeleteEchoById] returns that failure with the images of the id gone,
    the echo table as it was, and the cache and the key list untouched. *)
Theorem DeleteEchoById_images_lost (s : State) (id : Z) (e : Err) :
  hd None (faults (db s)) = None ->
  hd None (tl (faults (db s))) = Some e ->
  let '(err, s') := DeleteEchoById id s in
  err = Some e
  /\ echos (db s') = echos (db s)
  /\ images (db s') = filter (fun i => negb (MessageID i =? id)) (images (db s))
  /\ cache s' = cache s
  /\ echoKeyList s' = echoKeyList s.
Proof.
  intros F1 F2. unfold DeleteEchoById. run_known.
  cbn [db echos images cache echoKeyList with_tables with_faults].
  repeat split.
Qed.

(** ** [LikeEcho] *)

Lemma find_map_liked id l :
  find (fun r => ID r =? id)
       (map (fun r => if ID r =? id then liked r else r) l)
  = option_map liked (find (fun r => ID r =? id) l).
Proof.
  induction l as [|x l IH]; simpl; [reflexivity|].
  destruct (ID x =? id) eqn:E; simpl; rewrite E; [reflexivity | exact IH].
Qed.

Lemma existsb_true_find {A} (f : A -> bool) l :
  existsb f l = true -> exists x, find f l = Some x.
Proof.
  induction l as [|y l IH]; simpl; [discriminate|].
  destruct (f y); simpl; [eauto | exact IH].
Qed.

(** X4.  Liking an id that no row carries: when the driver reports no
    failure, [LikeEcho] returns the echo-not-found error after the one
    statement that looks for the row; it sends no update, purges nothing
    and leaves tables, cache and key list as they were. *)
Theorem LikeEcho_missing_row (s : State) (id : Z) :
  existsb (fun r => ID r =? id) (echos (db s)) = false ->
  driver_ok 1 (db s) ->
  let '(err, s') := LikeEcho id s in
  err = Some ErrEchoNotFound
  /\ new_events s s' = [EvDB (OpExists id) None]
  /\ echos (db s') = echos (db s)
  /\ images (db s') = images (db s)
  /\ cache s' = cache s
  /\ echoKeyList s' = echoKeyList s.
Proof.
  intros Hno Hok. apply driver_ok_1 in Hok.
  unfold LikeEcho. run_known; try (rewrite Hno in Eb; discriminate Eb).
  cbn [db echos images cache echoKeyList with_faults].
  split; [reflexivity|]. split; [finish_trace|]. repeat split.
Qed.

(** X5.  Like, then look up: after [LikeEcho] has returned no error, the
    row of that id is there with its like count one higher and every other
    column as before, no row was added or removed, the images are
    untouched, and [GetEchosById], when the driver reports no failure,
    returns that row. *)
Theorem LikeEcho_then_lookup (s s' : State) (id : Z) :
  LikeEcho id s = (None, s') ->
  driver_ok 1 (db s') ->
  exists e,
    find (fun r => ID r =? id) (echos (db s)) = Some e
    /\ fst (GetEchosById id s') = (Some (preload (db s) (liked e)), None)
    /\ FavCount (liked e) = FavCount e + 1
    /\ map ID (echos (db s')) = map ID (echos (db s))
    /\ images (db s') = images (db s).
Proof.
  intros H Hok. apply driver_ok_1 in Hok. revert H Hok.
  unfold LikeEcho. run_method; intro H; try discriminate.
  apply (f_equal snd) in H; cbn [snd] in H; subst s'.
  cbn [db echos images faults with_tables with_faults]. intro Hok.
  apply negb_false_iff in Eb.
  destruct (existsb_true_find _ _ Eb) as [e He].
  exists e. split; [exact He|]. split.
  - unfold GetEchosById. run_known.
    fold liked. rewrite find_map_liked, He. reflexivity.
  - split; [reflexivity|]. split; [|reflexivity].
    rewrite map_map. apply map_ext. intro r.
    destruct (ID r =? id); reflexivity.
Qed.

(** ** [CreateEcho] *)

Lemma filter_with_MessageID id imgs :
  filter (fun i => MessageID i =? id) (map (fun i => with_MessageID i id) imgs)
  = map (fun i => with_MessageID i id) imgs.
Proof.
  induction imgs as [|i imgs IH]; simpl; [reflexivity|].
  now rewrite Z.eqb_refl, IH.
Qed.

(** X6.  Create, then look up: after [CreateEcho] has returned no error,
    [GetEchosById] of the id written back to the caller's echo, when the
    driver reports no failure, returns the new row: the same columns as the
    caller's echo, the content trimmed, and as images those of the input
    stored under the new id (after any image the table already held under
    that id). *)
Theorem CreateEcho_then_lookup (echo echo' : Echo) (s s' : State) :
  CreateEcho echo s = (None, echo', s') ->
  driver_ok 1 (db s') ->
  exists found,
    fst (GetEchosById (ID echo') s') = (Some found, None)
    /\ with_Images found [] = with_Images echo' []
    /\ Content found = TrimSpace (Content echo)
    /\ Images echo' = map (fun i => with_MessageID i (ID echo')) (Images echo)
    /\ Images found
       = (filter (fun i => MessageID i =? ID echo') (images (db s))
          ++ Images echo')%list
    /\ existsb (fun r => ID r =? ID echo') (echos (db s)) = false.
Proof.
  intros H Hok. apply driver_ok_1 in Hok. revert H Hok.
  unfold CreateEcho. run_method; intro H; try discriminate;
    injection H as <- <-;
    cbn [db echos images faults with_tables with_faults ID with_Images];
    intro Hok;
    cbn [ID Content with_Content] in *;
    (eexists; split;
     [ unfold GetEchosById; run_known;
       cbn [echos images with_tables with_faults db];
       erewrite find_app_none;
       [reflexivity | now apply existsb_false_find | apply Z.eqb_refl]
     | cbn [preload with_Images ID Content Images images with_tables with_faults];
       split; [reflexivity|]; split; [reflexivity|]; split; [reflexivity|];
       split; [|assumption];
       rewrite filter_app, filter_with_MessageID; reflexivity ]).
Qed.

(** X7.  White space only: [CreateEcho] does not refuse a content made of
    white space alone; when the insert succeeds, the row it stores has the
    empty content. *)
Theorem CreateEcho_blank_content (echo echo' : Echo) (s s' : State) :
  all_space (Content echo) ->
  CreateEcho echo s = (None, echo', s') ->
  exists row,
    echos (db s') = (echos (db s) ++ [row])%list
    /\ Content row = ""
    /\ Content echo' = "".
Proof.
  intros Hws H. apply CreateEcho_success in H.
  destruct H as (row & Hrows & Hc & _ & Hc' & _).
  exists row. split; [exact Hrows|].
  unfold TrimSpace in Hc, Hc'.
  rewrite (trimLeft_all_space _ Hws) in Hc, Hc'.
  split; assumption.
Qed.

(** ** [UpdateEcho] *)

(** X8.  The update is all or nothing on the tables: when [UpdateEcho]
    returns an error, whichever statement of the transaction or the commit
    itself has failed, the echo table and the image table are as they were
    before the call. *)
Theorem UpdateEcho_error_keeps_tables (echo : Echo) (s s' : State) (e : Err) :
  UpdateEcho echo s = (Some e, s') ->
  echos (db s') = echos (db s)
  /\ images (db s') = images (db s)
  /\ next_id (db s') = next_id (db s).
Proof.
  unfold UpdateEcho. run_method; intro H; try discriminate;
    apply (f_equal snd) in H; cbn [snd] in H; subst s';
    cbn [db echos images next_id with_tables with_faults]; auto.
Qed.

Lemma find_map_update (echo : Echo) l :
  find (fun r => ID r =? ID echo)
       (map (fun r => if ID r =? ID echo
                      then mkEcho (ID r) (Content echo) (Images r) (Private echo)
                                  (Extension echo) (ExtensionType echo)
                                  (FavCount r) (CreatedAt r)
                      else r) l)
  = option_map (fun r => mkEcho (ID r) (Content echo) (Images r) (Private echo)
                                (Extension echo) (ExtensionType echo)
                                (FavCount r) (CreatedAt r))
               (find (fun r => ID r =? ID echo) l).
Proof.
  induction l as [|x l IH]; simpl; [reflexivity|].
  destruct (ID x =? ID echo) eqn:E; simpl; rewrite E; [reflexivity | exact IH].
Qed.

Lemma map_update_missing (echo : Echo) (f : Echo -> Echo) l :
  existsb (fun r => ID r =? ID echo) l = false ->
  map (fun r => if ID r =? ID echo then f r else r) l = l.
Proof.
  induction l as [|x l IH]; simpl; [reflexivity|].
  destruct (ID x =? ID echo); simpl; [discriminate|].
  intro H. now rewrite IH.
Qed.

(** X9.  Update, then look up: after [UpdateEcho] has returned no error
    for an echo whose id a row carries, [GetEchosById] of that id, when the
    driver reports no failure, returns the row with content, private flag,
    extension and extension type of the input (the content as given, not
    trimmed), with like count and creation time as before, and with
    exactly the images of the input, stored under the id. *)
Theorem UpdateEcho_then_lookup (echo old : Echo) (s s' : State) :
  UpdateEcho echo s = (None, s') ->
  driver_ok 1 (db s') ->
  find (fun r => ID r =? ID echo) (echos (db s)) = Some old ->
  fst (GetEchosById (ID echo) s')
  = (Some (mkEcho (ID echo) (Content echo)
                  (map (fun img => with_MessageID img (ID echo)) (Images echo))
                  (Private echo) (Extension echo) (ExtensionType echo)
                  (FavCount old) (CreatedAt old)),
     None).
Proof.
  intros H Hok Hold. apply driver_ok_1 in Hok. revert H Hok.
  assert (Hid : ID old = ID echo).
  { apply find_some in Hold. destruct Hold as [_ Hold]. now apply Z.eqb_eq. }
  unfold UpdateEcho. run_method; intro H; try discriminate;
    apply (f_equal snd) in H; cbn [snd] in H; subst s';
    cbn [db echos images faults with_tables with_faults]; intro Hok;
    unfold GetEchosById; run_known;
    cbn [echos images with_tables with_faults db];
    rewrite find_map_update, Hold; cbn [option_map]; unfold preload, with_Images;
    cbn [ID Content Private Extension ExtensionType FavCount CreatedAt
         images with_tables with_faults fst];
    rewrite Hid, ?filter_app, filter_filter_negb;
    rewrite ?filter_with_MessageID; cbn [app];
    try rewrite <- Ei; try rewrite Eb; reflexivity.
Qed.

(** X10.  Updating an id that no row carries is not an error: with a
    driver that reports no failure, [UpdateEcho] returns nil and the echo
    table is as it was (where [DeleteEchoById] and [LikeEcho] report
    not-found). *)
Theorem UpdateEcho_missing_row (echo : Echo) (s : State) :
  existsb (fun r => ID r =? ID echo) (echos (db s)) = false ->
  faults (db s) = [] ->
  fst (UpdateEcho echo s) = None
  /\ echos (db (snd (UpdateEcho echo s))) = echos (db s).
Proof.
  intros Hno Hf. unfold UpdateEcho. run_known;
    cbn [fst snd db echos with_tables with_faults];
    rewrite (map_update_missing echo _ _ Hno); auto.
Qed.

(** ** Failures of the store during a read *)

(** X11.  A failed count is served and cached as an empty page: when a
    read misses the cache and the driver fails the count statement,
    [GetEchosByPage] returns no rows and total 0 (it has no error to
    return), and with room in the cache for one page the same read run
    again, whatever the driver does then, returns the empty page from the
    cache without a statement to the store. *)
Theorem failed_count_is_cached
        (s : State) (page pageSize : Z) (search : string) (showPrivate : bool)
        (e : Err) (fs : list (option Err)) :
  lookup (GetEchoPageCacheKey page pageSize search showPrivate)
         (entries (cache s)) = None ->
  hd None (faults (db s)) = Some e ->
  1 <= capacity (cache s) ->
  let '(r1, s1) := GetEchosByPage page pageSize search showPrivate s in
  let '(r2, s2) := GetEchosByPage page pageSize search showPrivate
                                  (with_driver s1 fs) in
  r1 = ([], 0)
  /\ new_events s s1 = [EvDB (OpCount (page_query search showPrivate)) (Some e)]
  /\ r2 = ([], 0)
  /\ new_events (with_driver s1 fs) s2 = [].
Proof.
  intros L Hf Hcap.
  rewrite (GetEchosByPage_miss _ _ _ _ _ L). cbv zeta.
  rewrite count_then_find_spec, Hf.
  set (key := GetEchoPageCacheKey page pageSize search showPrivate) in *.
  destruct (cache_Set_accepts key (mkPage [] 0) 1 (cache s)) as [_ Hl]; [lia|].
  match goal with
  | |- let '(r2, s2) := GetEchosByPage _ _ _ _ ?st in _ =>
      assert (Hhit : lookup key (entries (cache st))
                     = Some (mkEntry key (mkPage [] 0) 1)) by exact Hl;
      rewrite (GetEchosByPage_hit _ _ _ _ _ _ Hhit)
  end.
  cbn [evalue Items Total].
  split; [reflexivity|]. split; [now apply new_events_app|].
  split; [reflexivity|].
  apply new_events_app. cbn [trace with_driver]. now rewrite app_nil_r.
Qed.

(** ** What holds in every run *)

(** The key names its query (the same steps as for the injectivity of the
    key, kept apart so that the runs do not lean on that theorem). *)
Lemma key_names_query p1 n1 q1 v1 p2 n2 q2 v2 :
  GetEchoPageCacheKey p1 n1 q1 v1 = GetEchoPageCacheKey p2 n2 q2 v2 ->
  p1 = p2 /\ n1 = n2 /\ q1 = q2 /\ v1 = v2.
Proof.
  unfold GetEchoPageCacheKey. intro H.
  apply sapp_inv_head in H.
  apply colon_split in H; try apply no_colon_fmt_d.
  destruct H as [Hp H]. apply fmt_d_inj in Hp.
  apply colon_split in H; try apply no_colon_fmt_d.
  destruct H as [Hn H]. apply fmt_d_inj in Hn.
  apply flag_suffix_inj in H. tauto.
Qed.

Lemma In_insert_desc e x l : In x (insert_desc e l) <-> x = e \/ In x l.
Proof.
  induction l as [|y l IH]; simpl.
  - intuition.
  - destruct (CreatedAt y <? CreatedAt e); simpl; [intuition|].
    rewrite IH. intuition.
Qed.

Lemma In_order_desc x l : In x (order_desc l) <-> In x l.
Proof.
  unfold order_desc. induction l as [|y l IH]; simpl; [tauto|].
  rewrite In_insert_desc, IH. intuition.
Qed.

Lemma length_insert_desc e l : List.length (insert_desc e l) = S (List.length l).
Proof.
  induction l as [|y l IH]; simpl; [reflexivity|].
  destruct (CreatedAt y <? CreatedAt e); simpl; [reflexivity | now rewrite IH].
Qed.

Lemma length_order_desc l : List.length (order_desc l) = List.length l.
Proof.
  unfold order_desc. induction l as [|y l IH]; simpl; [reflexivity|].
  now rewrite length_insert_desc, IH.
Qed.

Lemma In_skipn {A} n (l : list A) x : In x (skipn n l) -> In x l.
Proof.
  revert l. induction n as [|n IH]; intros [|y l]; simpl; auto.
Qed.

Lemma In_firstn {A} n (l : list A) x : In x (firstn n l) -> In x l.
Proof.
  revert l. induction n as [|n IH]; intros [|y l] H; simpl in *;
    try contradiction.
  destruct H as [-> | H]; [now left | right; now apply IH].
Qed.

Lemma In_window limit offset l x : In x (window limit offset l) -> In x l.
Proof.
  unfold window. intro H.
  destruct (0 <=? limit); [apply In_firstn in H|];
    destruct (0 <? offset); try assumption; now apply In_skipn in H.
Qed.

(** The rows a read returns are rows of the table that match its query,
    each with its images. *)
Lemma In_find_rows d q limit offset x :
  In x (find_rows d q limit offset) ->
  exists r, x = preload d r /\ In r (echos d) /\ matches d q r = true.
Proof.
  unfold find_rows. intro H. apply in_map_iff in H.
  destruct H as (r & <- & Hr). exists r. split; [reflexivity|].
  apply In_window in Hr. apply (proj1 (In_order_desc _ _)) in Hr.
  unfold matching in Hr. apply filter_In in Hr. exact Hr.
Qed.

Lemma find_rows_public d search limit offset :
  Forall (fun x => Private x = false)
         (find_rows d (page_query search false) limit offset).
Proof.
  apply Forall_forall. intros x Hx.
  apply In_find_rows in Hx. destruct Hx as (r & -> & _ & Hm).
  rewrite matches_page_query in Hm. unfold visible_match in Hm.
  apply andb_true_iff in Hm. destruct Hm as [_ Hm].
  cbn [orb] in Hm. apply negb_true_iff in Hm. exact Hm.
Qed.

Lemma same_tables_answers d d' :
  echos d' = echos d -> images d' = images d -> like d' = like d ->
  same_answers d d'.
Proof.
  destruct d, d'. cbn [echos images like]. intros -> -> ->.
  intros q limit offset. split; reflexivity.
Qed.

Lemma same_answers_refl d : same_answers d d.
Proof. intros q limit offset. split; reflexivity. Qed.

(** Deleting the images of an id that no row carries changes no answer. *)
Lemma orphan_images_same_answers d d' id :
  existsb (fun r => ID r =? id) (echos d) = false ->
  echos d' = echos d ->
  images d' = filter (fun i => negb (MessageID i =? id)) (images d) ->
  like d' = like d ->
  same_answers d d'.
Proof.
  intros Hno He Hi Hl q limit offset.
  assert (Hm : matching d' q = matching d q).
  { unfold matching. rewrite He. apply filter_ext. intro r.
    unfold matches, cond_holds. now rewrite Hl. }
  split; [|unfold count_rows; now rewrite Hm].
  unfold find_rows. rewrite Hm. apply map_ext_in. intros r Hr.
  apply In_window in Hr. apply (proj1 (In_order_desc _ _)) in Hr. unfold matching in Hr.
  apply filter_In in Hr. destruct Hr as [Hr _].
  unfold preload. f_equal. rewrite Hi.
  assert (Hid : (ID r =? id) = false).
  { destruct (ID r =? id) eqn:E; [|reflexivity].
    assert (existsb (fun r => ID r =? id) (echos d) = true)
      by (apply existsb_exists; eauto).
    congruence. }
  clear Hi. induction (images d) as [|i l IH]; simpl; [reflexivity|].
  destruct (MessageID i =? id) eqn:Ei; simpl.
  - destruct (MessageID i =? ID r) eqn:Er; [|exact IH].
    apply Z.eqb_eq in Ei, Er. rewrite <- Er, Ei, Z.eqb_refl in Hid. discriminate.
  - destruct (MessageID i =? ID r); [now rewrite IH | exact IH].
Qed.

Lemma GetEchosById_frame id s :
  let s' := snd (GetEchosById id s) in
  cache s' = cache s /\ echoKeyList s' = echoKeyList s
  /\ echos (db s') = echos (db s) /\ images (db s') = images (db s)
  /\ like (db s') = like (db s).
Proof.
  unfold GetEchosById, bind, db_First, ret. rewrite db_call_spec. cbv zeta.
  destruct (hd None (faults (db s))) as [e|].
  - destruct (errors_Is e ErrRecordNotFound);
      cbn [snd cache echoKeyList db echos images like with_faults]; auto.
  - cbn [echos with_faults].
    destruct (find _ (echos (db s)));
      cbn [snd cache echoKeyList db echos images like with_faults]; auto.
Qed.

(** A write sent to a driver that reports no failure either purges, or
    leaves cache and key list alone and changes no answer of the store. *)
Lemma run_mutation_quiet m s :
  faults (db s) = [] ->
  let s' := snd (run_mutation m s) in
  (cache s' = purged (echoKeyList s) (cache s) /\ echoKeyList s' = [])
  \/ (cache s' = cache s /\ echoKeyList s' = echoKeyList s
      /\ same_answers (db s) (db s')).
Proof.
  intro Hf. destruct m as [echo | id | echo | id]; cbn [run_mutation].
  - unfold CreateEcho. run_known; cbn [snd cache echoKeyList db]; auto;
      right; (split; [reflexivity|]); (split; [reflexivity|]);
      apply same_tables_answers; reflexivity.
  - unfold DeleteEchoById. run_known; cbn [snd cache echoKeyList db]; auto.
    right. split; [reflexivity|]. split; [reflexivity|].
    apply filter_length_zero in Eb.
    apply (orphan_images_same_answers _ _ id Eb);
      cbn [echos images like with_tables with_faults]; try reflexivity.
    now apply existsb_false_filter_negb.
  - unfold UpdateEcho. run_known; cbn [snd cache echoKeyList db]; auto.
  - unfold LikeEcho. run_known; cbn [snd cache echoKeyList db]; auto;
      right; (split; [reflexivity|]); (split; [reflexivity|]);
      apply same_tables_answers; reflexivity.
Qed.

Lemma run_call_tracked c s : tracked s -> tracked (run_call c s).
Proof.
  intro Ht. destruct c as [page pageSize search showPrivate | id | m];
    cbn [run_call].
  - now apply GetEchosByPage_tracked.
  - destruct (GetEchosById_frame id s) as (Hc & Hl & _).
    intros k Hk. rewrite Hl. apply Ht. now rewrite <- Hc.
  - now apply run_mutation_tracked.
Qed.

Lemma with_driver_tracked s fs : tracked s -> tracked (with_driver s fs).
Proof. intros Ht k Hk. exact (Ht k Hk). Qed.

Lemma run_calls_tracked cs s : tracked s -> tracked (run_calls cs s).
Proof.
  revert s. induction cs as [|[fs c] cs IH]; intros s Ht; cbn [run_calls].
  - exact Ht.
  - apply IH, run_call_tracked, with_driver_tracked, Ht.
Qed.

(** X12.  In every run of reads, lookups and writes on a fresh repository,
    whatever failures the driver reports on the way, every key resident in
    the cache is on the key list; so a write that returns no error leaves
    no page in the cache. *)
Theorem every_run_is_tracked
        (cap : Z) (lk : string -> string -> bool)
        (cs : list (list (option Err) * Call)) (m : Mutation) :
  let s := run_calls cs (init_state cap lk) in
  (forall k, resident k (cache s) = true -> In k (echoKeyList s))
  /\ (fst (run_mutation m s) = None ->
      entries (cache (snd (run_mutation m s))) = []
      /\ echoKeyList (snd (run_mutation m s)) = []).
Proof.
  cbv zeta.
  pose proof (run_calls_tracked cs _ (init_state_tracked cap lk)) as Ht.
  split; [exact Ht|]. intro Hm.
  destruct (run_mutation m (run_calls cs (init_state cap lk))) as [err s'] eqn:E.
  cbn [fst snd] in *. subst err.
  destruct (run_mutation_success _ _ _ E) as (Hc & Hl & _).
  split; [|exact Hl]. rewrite Hc. now apply purged_tracked_empty.
Qed.

(** ** Private rows *)

Lemma cache_public_subset s s' :
  (forall e, In e (entries (cache s')) -> In e (entries (cache s))) ->
  cache_public s -> cache_public s'.
Proof. intros Hsub Hp e page pageSize search He. apply Hp. auto. Qed.

Lemma purged_subset ks (c : CacheStore PageQueryResult) e :
  In e (entries (purged ks c)) -> In e (entries c).
Proof. rewrite purged_entries. intro H. apply filter_In in H. tauto. Qed.

Lemma GetEchosByPage_public page pageSize search showPrivate s :
  cache_public s ->
  cache_public (snd (GetEchosByPage page pageSize search showPrivate s))
  /\ (showPrivate = false ->
      Forall (fun x => Private x = false)
             (fst (fst (GetEchosByPage page pageSize search showPrivate s)))).
Proof.
  intro Hp.
  destruct (lookup (GetEchoPageCacheKey page pageSize search showPrivate)
                   (entries (cache s))) as [e|] eqn:L.
  - rewrite (GetEchosByPage_hit _ _ _ _ _ _ L). cbn [fst snd].
    assert (He : In e (entries (cache s)))
      by (unfold lookup in L; apply find_some in L; tauto).
    split.
    + apply (cache_public_subset s); [|exact Hp]. cbn [cache entries].
      intros e' He'. apply in_app_or in He'.
      destruct He' as [He' | [<- | []]]; [eapply remove_key_In, He' | exact He].
    + intros ->. apply (Hp e page pageSize search He).
      now apply lookup_some_key in L.
  - rewrite (GetEchosByPage_miss _ _ _ _ _ L). cbv zeta.
    rewrite count_then_find_spec.
    assert (Hnew : forall found total,
               (showPrivate = false -> Forall (fun x => Private x = false) found) ->
               forall d tr,
               cache_public
                 (mkState d
                    (snd (cache_Set (GetEchoPageCacheKey page pageSize search showPrivate)
                                    (mkPage found total) 1 (cache s)))
                    (echoKeyList s
                     ++ [GetEchoPageCacheKey page pageSize search showPrivate])
                    tr)).
    { intros found total Hfound d tr e p n q He Hk. cbn [cache] in He.
      apply cache_Set_resident in He as He'.
      unfold cache_Set in He. cbn [Z.leb Z.compare] in He.
      destruct (capacity (cache s) <? 1); cbn [snd entries] in He.
      - exact (Hp e p n q He Hk).
      - apply in_app_or in He. destruct He as [He | [<- | []]].
        + apply (Hp e p n q); [|exact Hk].
          eapply remove_key_In, evict_In, He.
        + cbn [ekey evalue Items] in *.
          apply key_names_query in Hk. apply Hfound. tauto. }
    destruct (hd None (faults (db s))) as [e|];
      [|destruct (hd None (tl (faults (db s)))) as [e|]];
      cbv zeta; cbn [fst snd db trace];
      (split; [apply Hnew | intros ->]);
      try (intros _; constructor); try constructor;
      try (intros ->; apply find_rows_public); apply find_rows_public.
Qed.

Lemma run_call_public c s : cache_public s -> cache_public (run_call c s).
Proof.
  intro Hp. destruct c as [page pageSize search showPrivate | id | m];
    cbn [run_call].
  - now apply GetEchosByPage_public.
  - destruct (GetEchosById_frame id s) as (Hc & _).
    apply (cache_public_subset s); [|exact Hp]. now rewrite Hc.
  - apply (cache_public_subset s); [|exact Hp].
    destruct (run_mutation_cache m s) as [[Hc _] | [Hc _]]; rewrite Hc; auto.
    intro e. apply purged_subset.
Qed.

Lemma run_calls_public cs s : cache_public s -> cache_public (run_calls cs s).
Proof.
  revert s. induction cs as [|[fs c] cs IH]; intros s Hp; cbn [run_calls].
  - exact Hp.
  - apply IH, run_call_public. exact Hp.
Qed.

(** X13.  Private rows stay private: in every run on a fresh repository,
    whatever failures the driver reports, a read with [showPrivate] false
    returns no echo whose private flag is set, whether the page comes from
    the store or from the cache. *)
Theorem private_rows_never_leak
        (cap : Z) (lk : string -> string -> bool)
        (cs : list (list (option Err) * Call))
        (page pageSize : Z) (search : string) :
  Forall (fun x => Private x = false)
         (fst (fst (GetEchosByPage page pageSize search false
                                   (run_calls cs (init_state cap lk))))).
Proof.
  apply GetEchosByPage_public; [|reflexivity].
  apply run_calls_public. intros e p n q He. destruct He.
Qed.

(** ** The cache is transparent while the driver does not fail *)

Lemma cache_fresh_step s s' :
  same_answers (db s) (db s') ->
  (forall e, In e (entries (cache s')) ->
             In e (entries (cache s))
             \/ exists page pageSize search showPrivate,
                 e = mkEntry (GetEchoPageCacheKey page pageSize search showPrivate)
                       (mkPage (find_rows (db s) (page_query search showPrivate)
                                          pageSize (int_mul (int_sub page 1) pageSize))
                               (count_rows (db s) (page_query search showPrivate)))
                       1) ->
  cache_fresh s -> cache_fresh s'.
Proof.
  intros Hsame Hsub Hf e He. destruct (Hsub e He) as [Hold | Hnew].
  - destruct (Hf e Hold) as (p & n & q & v & Hk & Hv).
    exists p, n, q, v. split; [exact Hk|]. rewrite Hv.
    destruct (Hsame (page_query q v) n (int_mul (int_sub p 1) n)) as [-> ->].
    reflexivity.
  - destruct Hnew as (p & n & q & v & ->).
    exists p, n, q, v. split; [reflexivity|]. cbn [evalue].
    destruct (Hsame (page_query q v) n (int_mul (int_sub p 1) n)) as [-> ->].
    reflexivity.
Qed.

(** A read from a fresh cache, the driver reporting no failure, returns the
    store's answer. *)
Lemma fresh_read page pageSize search showPrivate s :
  faults (db s) = [] -> cache_fresh s ->
  fst (GetEchosByPage page pageSize search showPrivate s)
  = (find_rows (db s) (page_query search showPrivate) pageSize
               (int_mul (int_sub page 1) pageSize),
     count_rows (db s) (page_query search showPrivate)).
Proof.
  intros Hf Hfresh.
  destruct (lookup (GetEchoPageCacheKey page pageSize search showPrivate)
                   (entries (cache s))) as [e|] eqn:L.
  - rewrite (GetEchosByPage_hit _ _ _ _ _ _ L). cbn [fst].
    assert (He : In e (entries (cache s)))
      by (unfold lookup in L; apply find_some in L; tauto).
    destruct (Hfresh e He) as (p & n & q & v & Hk & Hv).
    apply lookup_some_key in L. rewrite L in Hk.
    apply key_names_query in Hk. destruct Hk as (-> & -> & -> & ->).
    rewrite Hv. reflexivity.
  - pose proof (GetEchosByPage_miss_ok page pageSize search showPrivate s L
                  (driver_ok_nil 2 _ Hf)) as R.
    cbv zeta in R.
    destruct (GetEchosByPage page pageSize search showPrivate s)
      as [[items total] s'].
    destruct R as (-> & -> & _). reflexivity.
Qed.

Lemma GetEchosByPage_fresh page pageSize search showPrivate s :
  faults (db s) = [] -> cache_fresh s ->
  cache_fresh (snd (GetEchosByPage page pageSize search showPrivate s)).
Proof.
  intros Hf Hfresh.
  destruct (lookup (GetEchoPageCacheKey page pageSize search showPrivate)
                   (entries (cache s))) as [e|] eqn:L.
  - rewrite (GetEchosByPage_hit _ _ _ _ _ _ L). cbn [snd].
    apply (cache_fresh_step s); [apply same_answers_refl | | exact Hfresh].
    intros e' He'. left. cbn [cache entries] in He'.
    apply in_app_or in He'. destruct He' as [He' | [<- | []]].
    + eapply remove_key_In, He'.
    + unfold lookup in L. apply find_some in L. tauto.
  - rewrite (GetEchosByPage_miss _ _ _ _ _ L). cbv zeta.
    rewrite count_then_find_spec, Hf. cbn [hd tl]. cbv zeta. cbn [snd].
    apply (cache_fresh_step s);
      [apply same_tables_answers; reflexivity | | exact Hfresh].
    intros e' He'. cbn [cache] in He'.
    unfold cache_Set in He'. cbn [Z.leb Z.compare] in He'.
    destruct (capacity (cache s) <? 1); cbn [snd entries] in He'.
    + now left.
    + apply in_app_or in He'. destruct He' as [He' | [<- | []]].
      * left. eapply remove_key_In, evict_In, He'.
      * right. exists page, pageSize, search, showPrivate. reflexivity.
Qed.

Lemma run_call_fresh c s :
  faults (db s) = [] -> tracked s -> cache_fresh s -> cache_fresh (run_call c s).
Proof.
  intros Hf Ht Hfresh.
  destruct c as [page pageSize search showPrivate | id | m]; cbn [run_call].
  - now apply GetEchosByPage_fresh.
  - destruct (GetEchosById_frame id s) as (Hc & _ & He & Hi & Hl).
    apply (cache_fresh_step s); [now apply same_tables_answers | | exact Hfresh].
    intros e He'. left. now rewrite <- Hc.
  - destruct (run_mutation_quiet m s Hf) as [[Hc _] | (Hc & _ & Hsame)].
    + intros e He. rewrite Hc, (purged_tracked_empty _ _ Ht) in He. destruct He.
    + apply (cache_fresh_step s); [exact Hsame | | exact Hfresh].
      intros e He. left. now rewrite <- Hc.
Qed.

Lemma with_driver_fresh s fs : cache_fresh s -> cache_fresh (with_driver s fs).
Proof.
  intro Hfresh. apply (cache_fresh_step s); [| |exact Hfresh].
  - apply same_tables_answers; reflexivity.
  - intros e He. now left.
Qed.

Lemma quiet_run_fresh cs s :
  tracked s -> cache_fresh s ->
  tracked (run_calls (quiet cs) s) /\ cache_fresh (run_calls (quiet cs) s).
Proof.
  revert s. induction cs as [|c cs IH]; intros s Ht Hfresh; cbn [quiet map run_calls].
  - auto.
  - apply IH.
    + apply run_call_tracked, with_driver_tracked, Ht.
    + apply run_call_fresh;
        [reflexivity | now apply with_driver_tracked | now apply with_driver_fresh].
Qed.

Lemma init_state_fresh cap lk : cache_fresh (init_state cap lk).
Proof. intros e He. destruct He. Qed.

(** X14.  The cache is transparent as long as the driver reports no
    failure: after any run of reads, lookups and writes on a fresh
    repository, a paginated read returns exactly the rows and the total
    that the store holds for its query at that moment, whether it finds
    the page in the cache or not. *)
Theorem quiet_reads_are_transparent
        (cap : Z) (lk : string -> string -> bool) (cs : list Call)
        (page pageSize : Z) (search : string) (showPrivate : bool) :
  let s := run_calls (quiet cs) (init_state cap lk) in
  fst (GetEchosByPage page pageSize search showPrivate (with_driver s []))
  = (find_rows (db s) (page_query search showPrivate) pageSize
               (int_mul (int_sub page 1) pageSize),
     count_rows (db s) (page_query search showPrivate)).
Proof.
  cbv zeta.
  destruct (quiet_run_fresh cs _ (init_state_tracked cap lk)
                            (init_state_fresh cap lk)) as [_ Hfresh].
  rewrite (fresh_read page pageSize search showPrivate
             (with_driver (run_calls (quiet cs) (init_state cap lk)) []))
    by (try reflexivity; now apply with_driver_fresh).
  reflexivity.
Qed.

Lemma window_length limit offset l :
  0 <= limit ->
  Z.of_nat (List.length (window limit offset l)) <= limit
  /\ (List.length (window limit offset l) <= List.length l)%nat.
Proof.
  intro Hl. unfold window.
  destruct (0 <=? limit) eqn:E; [|apply Z.leb_gt in E; lia].
  rewrite length_firstn.
  destruct (0 <? offset); rewrite ?length_skipn; split; lia.
Qed.

(** X15.  Size of a page: while the driver reports no failure, a read with
    a page size of zero or more returns at most [pageSize] items, never
    more items than its total, and a total that is not negative. *)
Theorem quiet_page_is_bounded
        (cap : Z) (lk : string -> string -> bool) (cs : list Call)
        (page pageSize : Z) (search : string) (showPrivate : bool) :
  0 <= pageSize ->
  let s := run_calls (quiet cs) (init_state cap lk) in
  let '(items, total, _) :=
    GetEchosByPage page pageSize search showPrivate (with_driver s []) in
  Z.of_nat (List.length items) <= pageSize
  /\ Z.of_nat (List.length items) <= total
  /\ 0 <= total.
Proof.
  intro Hps. cbv zeta.
  destruct (quiet_run_fresh cs _ (init_state_tracked cap lk)
                            (init_state_fresh cap lk)) as [_ Hfresh].
  pose proof (fresh_read page pageSize search showPrivate
                (with_driver (run_calls (quiet cs) (init_state cap lk)) [])
                eq_refl (with_driver_fresh _ _ Hfresh)) as R.
  destruct (GetEchosByPage page pageSize search showPrivate _)
    as [[items total] s'].
  cbn [fst] in R. injection R as -> ->.
  unfold find_rows, count_rows. rewrite length_map.
  match goal with
  | |- context [window ?l ?o ?r] =>
      destruct (window_length l o r Hps) as [H1 H2]
  end.
  rewrite length_order_desc in H2. cbn [db with_driver] in *.
  split; [exact H1|]. split; [|lia].
  apply inj_le. exact H2.
Qed.

(** ** Paging through *)

Lemma GetEchosByPage_quiet_db page pageSize search showPrivate s :
  faults (db s) = [] ->
  db (snd (GetEchosByPage page pageSize search showPrivate s)) = db s.
Proof.
  intro Hf.
  destruct (lookup (GetEchoPageCacheKey page pageSize search showPrivate)
                   (entries (cache s))) as [e|] eqn:L.
  - now rewrite (GetEchosByPage_hit _ _ _ _ _ _ L).
  - rewrite (GetEchosByPage_miss _ _ _ _ _ L). cbv zeta.
    rewrite count_then_find_spec, Hf. cbn [hd tl]. cbv zeta. cbn [snd db].
    rewrite <- Hf at 1. apply with_faults_same.
Qed.

Lemma firstn_plus {A} a b (l : list A) :
  firstn (a + b) l = (firstn a l ++ firstn b (skipn a l))%list.
Proof.
  revert l. induction a as [|a IH]; intros [|x l]; simpl;
    try reflexivity.
  - now rewrite firstn_nil.
  - now rewrite IH.
Qed.

Lemma read_pages_spec n pageSize search showPrivate s :
  faults (db s) = [] -> cache_fresh s ->
  1 <= pageSize -> Z.of_nat n * pageSize <= MaxInt ->
  let '(items, s') := read_pages n pageSize search showPrivate s in
  db s' = db s /\ cache_fresh s'
  /\ items
     = map (preload (db s))
           (firstn (n * Z.to_nat pageSize)
                   (order_desc (matching (db s) (page_query search showPrivate)))).
Proof.
  intros Hf Hfresh Hk. induction n as [|n IH]; intro Hmax; cbn [read_pages].
  - auto.
  - assert (Hmax' : Z.of_nat n * pageSize <= MaxInt) by nia.
    specialize (IH Hmax').
    destruct (read_pages n pageSize search showPrivate s) as [before s1].
    destruct IH as (Hdb & Hfresh1 & ->).
    assert (Hf1 : faults (db s1) = []) by now rewrite Hdb.
    pose proof (fresh_read (Z.of_nat (S n)) pageSize search showPrivate s1
                           Hf1 Hfresh1) as R.
    pose proof (GetEchosByPage_quiet_db (Z.of_nat (S n)) pageSize search
                                        showPrivate s1 Hf1) as D.
    pose proof (GetEchosByPage_fresh (Z.of_nat (S n)) pageSize search
                                     showPrivate s1 Hf1 Hfresh1) as F.
    destruct (GetEchosByPage (Z.of_nat (S n)) pageSize search showPrivate s1)
      as [[items total] s2].
    cbn [fst snd] in *. injection R as -> _.
    split; [congruence|]. split; [exact F|].
    rewrite Hdb.
    rewrite offset_exact by (try assumption; lia).
    replace (Z.of_nat (S n) - 1) with (Z.of_nat n) by lia.
    unfold find_rows, window.
    assert (E1 : (0 <=? pageSize) = true) by (apply Z.leb_le; lia).
    rewrite E1, <- map_app. f_equal.
    replace (S n * Z.to_nat pageSize)%nat
      with (n * Z.to_nat pageSize + Z.to_nat pageSize)%nat by lia.
    rewrite firstn_plus. f_equal. f_equal.
    change (Z.pos (Pos.of_succ_nat n)) with (Z.of_nat (S n)).
    replace (Z.of_nat (S n) - 1) with (Z.of_nat n) by lia.
    destruct (0 <? Z.of_nat n * pageSize) eqn:E0.
    + f_equal. rewrite Z2Nat.inj_mul, Nat2Z.id by lia. reflexivity.
    + apply Z.ltb_ge in E0.
      assert (n = O) by nia. subst n. reflexivity.
Qed.

(** X16.  Paging through: while the driver reports no failure, reading the
    pages 1, 2, ..., n of one query in turn, with a page size of at least
    one and offsets that fit an int, returns the first [n * pageSize] rows
    that match the search term and the visibility filter, newest first,
    each with its images: the pages neither overlap nor leave a row out. *)
Theorem pages_partition_the_rows
        (cap : Z) (lk : string -> string -> bool) (cs : list Call)
        (n : nat) (pageSize : Z) (search : string) (showPrivate : bool) :
  1 <= pageSize ->
  Z.of_nat n * pageSize <= MaxInt ->
  let s := run_calls (quiet cs) (init_state cap lk) in
  fst (read_pages n pageSize search showPrivate (with_driver s []))
  = map (preload (db s))
        (firstn (n * Z.to_nat pageSize)
                (order_desc (filter (visible_match (db s) search showPrivate)
                                    (echos (db s))))).
Proof.
  intros Hk Hmax. cbv zeta.
  destruct (quiet_run_fresh cs _ (init_state_tracked cap lk)
                            (init_state_fresh cap lk)) as [_ Hfresh].
  pose proof (read_pages_spec n pageSize search showPrivate
                (with_driver (run_calls (quiet cs) (init_state cap lk)) [])
                eq_refl (with_driver_fresh _ _ Hfresh) Hk Hmax) as R.
  destruct (read_pages n pageSize search showPrivate _) as [items s'].
  destruct R as (_ & _ & ->). cbn [fst].
  rewrite matching_visible. reflexivity.
Qed.

(* ===================================================================== *)
(** * Concrete runs of the further properties *)

Lemma DeleteEchoById_missing_row_witness :
  fst (DeleteEchoById 7 demo_filled) = Some ErrRecordNotFound
  /\ echos (db (snd (DeleteEchoById 7 demo_filled))) = echos (db demo_filled).
Proof.
  pose proof (DeleteEchoById_missing_row demo_filled 7 eq_refl
                ltac:(apply driver_ok_nil; reflexivity)) as H.
  destruct (DeleteEchoById 7 demo_filled) as [err s'].
  destruct H as (-> & He & _). split; [reflexivity | exact He].
Defined.

Lemma DeleteEchoById_then_lookup_witness :
  map ID (echos (db (snd (DeleteEchoById 1 demo_filled)))) = [2]
  /\ fst (GetEchosById 1 (snd (DeleteEchoById 1 demo_filled))) = (None, None).
Proof.
  destruct (DeleteEchoById_then_lookup
              demo_filled (snd (DeleteEchoById 1 demo_filled)) 1 eq_refl
              ltac:(apply driver_ok_nil; reflexivity)) as (He & _ & Hl & _).
  split; [rewrite He; reflexivity | exact Hl].
Defined.

Lemma DeleteEchoById_images_lost_witness :
  fst (DeleteEchoById 1 (with_driver demo_filled [None; Some (ErrDriver 5)]))
  = Some (ErrDriver 5)
  /\ map ID (echos (db (snd (DeleteEchoById 1
                 (with_driver demo_filled [None; Some (ErrDriver 5)]))))) = [1; 2].
Proof.
  pose proof (DeleteEchoById_images_lost
                (with_driver demo_filled [None; Some (ErrDriver 5)]) 1
                (ErrDriver 5) eq_refl eq_refl) as H.
  destruct (DeleteEchoById 1 _) as [err s']. cbn [fst snd].
  destruct H as (-> & He & _). split; [reflexivity | rewrite He; reflexivity].
Defined.

Lemma LikeEcho_missing_row_witness :
  fst (LikeEcho 7 demo_filled) = Some ErrEchoNotFound
  /\ new_events demo_filled (snd (LikeEcho 7 demo_filled))
     = [EvDB (OpExists 7) None].
Proof.
  pose proof (LikeEcho_missing_row demo_filled 7 eq_refl
                ltac:(apply driver_ok_nil; reflexivity)) as H.
  destruct (LikeEcho 7 demo_filled) as [err s'].
  destruct H as (-> & Hev & _). split; [reflexivity | exact Hev].
Defined.

Lemma LikeEcho_then_lookup_witness :
  exists e,
    fst (GetEchosById 1 (snd (LikeEcho 1 demo_filled))) = (Some e, None)
    /\ FavCount e = 1.
Proof.
  destruct (LikeEcho_then_lookup
              demo_filled (snd (LikeEcho 1 demo_filled)) 1 eq_refl
              ltac:(apply driver_ok_nil; reflexivity)) as (e & Hfind & Hl & _).
  eexists. split; [exact Hl|].
  vm_compute in Hfind. injection Hfind as <-. reflexivity.
Defined.

Lemma CreateEcho_then_lookup_witness :
  exists found,
    fst (GetEchosById 3 (snd (CreateEcho demo_echo demo_filled))) = (Some found, None)
    /\ Content found = "hello world".
Proof.
  destruct (CreateEcho_then_lookup
              demo_echo (snd (fst (CreateEcho demo_echo demo_filled)))
              demo_filled (snd (CreateEcho demo_echo demo_filled)) eq_refl
              ltac:(apply driver_ok_nil; reflexivity)) as (found & Hl & _ & Hc & _).
  exists found. split; [exact Hl | exact Hc].
Defined.

Lemma CreateEcho_blank_content_witness :
  exists row,
    echos (db (snd (CreateEcho (with_Content demo_echo "  ") demo_state))) = [row]
    /\ Content row = "".
Proof.
  destruct (CreateEcho_blank_content
              (with_Content demo_echo "  ")
              (snd (fst (CreateEcho (with_Content demo_echo "  ") demo_state)))
              demo_state
              (snd (CreateEcho (with_Content demo_echo "  ") demo_state)))
    as (row & Hrows & Hc & _).
  - repeat (apply all_space_1; [reflexivity|]). constructor.
  - reflexivity.
  - exists row. split; [exact Hrows | exact Hc].
Defined.

Lemma UpdateEcho_error_keeps_tables_witness :
  echos (db (snd (UpdateEcho demo_update
                    (with_driver demo_filled [None; None; None; Some (ErrDriver 9)]))))
  = echos (db demo_filled).
Proof.
  apply (UpdateEcho_error_keeps_tables
           demo_update
           (with_driver demo_filled [None; None; None; Some (ErrDriver 9)])
           _ (ErrDriver 9)).
  reflexivity.
Defined.

Lemma UpdateEcho_then_lookup_witness :
  exists e,
    fst (GetEchosById 1 (snd (UpdateEcho demo_update demo_filled))) = (Some e, None)
    /\ Content e = "hello again".
Proof.
  eexists. split.
  - apply (UpdateEcho_then_lookup
             demo_update
             (mkEcho 1 "hello world" [] false "" "" 0 0)
             demo_filled (snd (UpdateEcho demo_update demo_filled)));
      [reflexivity | apply driver_ok_nil; reflexivity | reflexivity].
  - reflexivity.
Defined.

Lemma UpdateEcho_missing_row_witness :
  fst (UpdateEcho (mkEcho 7 "nobody" [] false "" "" 0 0) demo_filled) = None.
Proof.
  apply (UpdateEcho_missing_row (mkEcho 7 "nobody" [] false "" "" 0 0) demo_filled);
    reflexivity.
Defined.

Lemma failed_count_is_cached_witness :
  fst (GetEchosByPage 1 10 "" false (with_driver demo_filled [Some (ErrDriver 3)]))
  = ([], 0)
  /\ fst (GetEchosByPage 1 10 "" false
            (with_driver
               (snd (GetEchosByPage 1 10 "" false
                       (with_driver demo_filled [Some (ErrDriver 3)])))
               []))
     = ([], 0)
  /\ snd (fst demo_read) = 1.
Proof.
  pose proof (failed_count_is_cached
                (with_driver demo_filled [Some (ErrDriver 3)]) 1 10 "" false
                (ErrDriver 3) [] eq_refl eq_refl) as H.
  destruct (GetEchosByPage 1 10 "" false
              (with_driver demo_filled [Some (ErrDriver 3)])) as [r1 s1].
  cbn [fst snd].
  destruct (GetEchosByPage 1 10 "" false (with_driver s1 [])) as [r2 s2].
  destruct H as (-> & _ & -> & _).
  - vm_compute. discriminate.
  - repeat split.
Defined.

Lemma quiet_page_is_bounded_witness :
  Z.of_nat (List.length (fst (fst (GetEchosByPage 1 1 "" true
      (with_driver (run_calls (quiet [CallWrite (MCreate demo_echo);
                                      CallWrite (MCreate demo_private);
                                      CallRead 1 1 "" true])
                              (init_state 4 like_contains)) []))))) <= 1.
Proof.
  pose proof (quiet_page_is_bounded
                4 like_contains
                [CallWrite (MCreate demo_echo); CallWrite (MCreate demo_private);
                 CallRead 1 1 "" true]
                1 1 "" true) as H.
  cbv zeta in H.
  destruct (GetEchosByPage 1 1 "" true _) as [[items total] s'].
  destruct H as (H & _); [lia | exact H].
Defined.

Lemma pages_partition_the_rows_witness :
  map Content
      (fst (read_pages 2 1 "" true
              (with_driver (run_calls (quiet [CallWrite (MCreate demo_echo);
                                              CallWrite (MCreate demo_private)])
                                      (init_state 4 like_contains)) [])))
  = ["a private note"; "hello world"].
Proof.
  rewrite (pages_partition_the_rows
             4 like_contains
             [CallWrite (MCreate demo_echo); CallWrite (MCreate demo_private)]
             2 1 "" true).
  - reflexivity.
  - lia.
  - vm_compute. discriminate.
Defined.
